(** * Multiclass classification notebook: softmax, one-hot encoding,
      cross-entropy with logits and the linear classifier

    Shallow embedding of the Python cells of
    [4. Multiclass classification Solutions.ipynb].  The cells are given two
    readings.  In the first, module [Np] and the definitions after it, arrays
    of floats hold real numbers [R]: the laws of softmax and of its gradient
    are laws of exact arithmetic.  In the second, module [F64], the arrays
    hold IEEE-754 binary64 values, as NumPy's do: this is the reading in
    which results round, overflow and become NaN.  Integer arrays are lists
    of [Z] in both.  A Python exception is an explicit [Raise] value, so
    every function is total and its failures are visible. *)

From Stdlib Require Import Reals Lra Lia List ZArith Bool PeanoNat.
From Stdlib Require Floats.
Import ListNotations.
Open Scope R_scope.

(** ** Exceptions *)

Inductive exn : Set := ValueError | IndexError | AttributeError.

Inductive result (A : Type) : Type :=
| Ok (a : A)
| Raise (e : exn).
Arguments Ok {A} a.
Arguments Raise {A} e.

Definition bind {A B : Type} (m : result A) (k : A -> result B) : result B :=
  match m with
  | Ok a => k a
  | Raise e => Raise e
  end.

Notation "x <- m ;; k" := (bind m (fun x => k))
  (at level 61, m at next level, right associativity).

Fixpoint mapM {A B : Type} (f : A -> result B) (xs : list A) : result (list B) :=
  match xs with
  | [] => Ok []
  | x :: xs' => y <- f x;; ys <- mapM f xs';; Ok (y :: ys)
  end.

Fixpoint zip_with {A B C : Type} (f : A -> B -> C) (xs : list A) (ys : list B)
  : list C :=
  match xs, ys with
  | x :: xs', y :: ys' => f x y :: zip_with f xs' ys'
  | _, _ => []
  end.

(** ** The fragment of NumPy the notebook calls *)

Module Np.

(** A two-dimensional array: its number of columns is part of the shape even
    when there is no row; the number of rows is the length of [rows]. *)
Record ndarray : Type := Mat { ncols : nat; rows : list (list R) }.

Definition nrows (a : ndarray) : nat := length (rows a).

(** Arrays are rectangular. *)
Definition wf (a : ndarray) : Prop :=
  Forall (fun r => length r = ncols a) (rows a).

(** Broadcasting of one dimension: equal sizes agree, a size of 1 stretches
    to the other size, anything else is NumPy's
    "operands could not be broadcast together". *)
Definition bdim (a b : nat) : result nat :=
  if (a =? b)%nat then Ok a
  else if (a =? 1)%nat then Ok b
  else if (b =? 1)%nat then Ok a
  else Raise ValueError.

(** A dimension of size 1 is repeated to the broadcast size. *)
Definition stretch {A : Type} (n : nat) (xs : list A) : list A :=
  match xs with
  | [x] => repeat x n
  | _ => xs
  end.

(** Element-wise binary operation with broadcasting ([a - b], [a * b],
    [a / b] on two-dimensional arrays). *)
Definition broadcast2 (f : R -> R -> R) (a b : ndarray) : result ndarray :=
  c <- bdim (ncols a) (ncols b);;
  r <- bdim (nrows a) (nrows b);;
  Ok (Mat c (zip_with (fun ra rb => zip_with f (stretch c ra) (stretch c rb))
                      (stretch r (rows a)) (stretch r (rows b)))).

Definition sub : ndarray -> ndarray -> result ndarray := broadcast2 Rminus.
Definition mul : ndarray -> ndarray -> result ndarray := broadcast2 Rmult.
Definition div : ndarray -> ndarray -> result ndarray := broadcast2 Rdiv.
Definition add : ndarray -> ndarray -> result ndarray := broadcast2 Rplus.

Definition map_elems (f : R -> R) (a : ndarray) : ndarray :=
  Mat (ncols a) (map (map f) (rows a)).

(** [np.exp], [np.log] and unary minus.  [ln] is the natural logarithm on
    the positive reals, which is where the notebook applies it in exact
    arithmetic (softmax outputs are positive). *)
Definition exp (a : ndarray) : ndarray := map_elems Rtrigo_def.exp a.
Definition log (a : ndarray) : ndarray := map_elems ln a.
Definition neg (a : ndarray) : ndarray := map_elems Ropp a.

Definition sum_list (xs : list R) : R := fold_right Rplus 0 xs.

(** [np.sum(a, axis=1)]: addition has an identity, so an empty row sums
    to 0. *)
Definition sum_axis1 (a : ndarray) : list R := map sum_list (rows a).

Definition max_list (x : R) (xs : list R) : R := fold_left Rmax xs x.

Definition max_row (r : list R) : R :=
  match r with
  | [] => 0
  | x :: xs => max_list x xs
  end.

(** [np.max(a, axis=1)]: maximum has no identity, a reduced axis of size 0
    raises ValueError. *)
Definition max_axis1 (a : ndarray) : result (list R) :=
  if (ncols a =? 0)%nat then Raise ValueError
  else Ok (map max_row (rows a)).

(** [v.reshape(-1, 1)] and [np.expand_dims(v, axis=1)] of a vector. *)
Definition reshape_col (v : list R) : ndarray :=
  Mat 1 (map (fun x => [x]) v).

(** The loop of [np.argmax]: the index moves only on a strictly larger
    entry, so the first maximum wins. *)
Fixpoint argmax_from (best : R) (besti i : nat) (xs : list R) : nat :=
  match xs with
  | [] => besti
  | x :: xs' =>
      if Rlt_dec best x then argmax_from x i (S i) xs'
      else argmax_from best besti (S i) xs'
  end.

Definition argmax_row (r : list R) : nat :=
  match r with
  | [] => 0%nat
  | x :: xs => argmax_from x 0 1 xs
  end.

(** [np.argmax(a, axis=1)] (the same as [axis=-1] on a two-dimensional
    array): "attempt to get argmax of an empty sequence" when there is no
    column. *)
Definition argmax_axis1 (a : ndarray) : result (list Z) :=
  if (ncols a =? 0)%nat then Raise ValueError
  else Ok (map (fun r => Z.of_nat (argmax_row r)) (rows a)).

(** [np.max(v)] of an integer vector. *)
Definition max_ints (v : list Z) : result Z :=
  match v with
  | [] => Raise ValueError
  | x :: xs => Ok (fold_left Z.max xs x)
  end.

Definition eye_row (n i : nat) : list R :=
  map (fun j => if (j =? i)%nat then 1 else 0) (seq 0 n).

(** [np.eye(N)]: "negative dimensions are not allowed". *)
Definition eye (N : Z) : result ndarray :=
  if (N <? 0)%Z then Raise ValueError
  else let n := Z.to_nat N in Ok (Mat n (map (eye_row n) (seq 0 n))).

(** A negative index counts from the end of an axis of size [n]. *)
Definition norm_index (n i : Z) : Z :=
  if (i <? 0)%Z then (i + n)%Z else i.

(** One index of [a[idx]]: an index outside [-nrows, nrows) raises
    IndexError. *)
Definition take_row (a : ndarray) (i : Z) : result (list R) :=
  let n := Z.of_nat (nrows a) in
  if ((i <? - n) || (n <=? i))%Z then Raise IndexError
  else Ok (nth (Z.to_nat (norm_index n i)) (rows a) []).

(** [a[idx]] with an integer vector [idx]: the selected rows. *)
Definition take_rows (a : ndarray) (idx : list Z) : result ndarray :=
  rs <- mapM (take_row a) idx;;
  Ok (Mat (ncols a) rs).

(** [np.dot] of two matrices: the inner dimensions must agree. *)
Definition column (j : nat) (a : ndarray) : list R :=
  map (fun r => nth j r 0) (rows a).

Definition dot (a b : ndarray) : result ndarray :=
  if (ncols a =? nrows b)%nat then
    Ok (Mat (ncols b)
          (map (fun r => map (fun j => sum_list (zip_with Rmult r (column j b)))
                             (seq 0 (ncols b)))
               (rows a)))
  else Raise ValueError.

End Np.

(** ** The graph library [aicore.ml.graph], imported as [g] *)

Module G.

(** Modelled from the spec: the graph library is not among the sources.
    The spec describes [predict_logits] as the affine transform of the input
    features by a weight matrix of shape (features x classes); [g.dot] is
    taken to be the graph node of [np.dot]. *)
Definition dot (a b : Np.ndarray) : result Np.ndarray := Np.dot a b.

(** Modelled from the spec: the graph library is not among the sources.
    The bias is a vector of length classes; [g.add] is taken to be the graph
    node of [np.add], which broadcasts the vector as a single row. *)
Definition add (a : Np.ndarray) (v : list R) : result Np.ndarray :=
  Np.add a (Np.Mat (length v) [v]).

End G.

(** ** The notebook *)

(** Cell 1: the first, naive [softmax]. *)
Definition softmax_naive (x : Np.ndarray) : result Np.ndarray :=
  let exponentials := Np.exp x in
  Np.div exponentials (Np.reshape_col (Np.sum_axis1 exponentials)).

(** Cell 4: the stable [softmax] that replaces it. *)
Definition softmax (logits : Np.ndarray) : result Np.ndarray :=
  m <- Np.max_axis1 logits;;
  shifted <- Np.sub logits (Np.reshape_col m);;
  let exps := Np.exp shifted in
  Np.div exps (Np.reshape_col (Np.sum_axis1 exps)).

(** Cell 6. *)
Definition to_one_hot (labels : list Z) (max_labels : option Z)
  : result Np.ndarray :=
  max_labels' <- match max_labels with
                 | None => m <- Np.max_ints labels;; Ok (m + 1)%Z
                 | Some n => Ok n
                 end;;
  e <- Np.eye max_labels';;
  Np.take_rows e labels.

Definition to_labels (one_hot : Np.ndarray) : result (list Z) :=
  Np.argmax_axis1 one_hot.

(** Cell 7: the operation object keeps the pair cached by [forward]. *)
Record CrossEntropyWithLogits : Type :=
  { cache : option (Np.ndarray * Np.ndarray) }.

(** Modelled from the spec: the base class [g.Operation] is not among the
    sources.  A newly built operation is taken to hold no cache yet. *)
Definition new_op : CrossEntropyWithLogits := {| cache := None |}.

(** [forward] returns the updated object together with its outcome; the
    cache is assigned before the returned expression is evaluated. *)
Definition forward (self : CrossEntropyWithLogits)
  (logits : Np.ndarray) (targets : list Z)
  : CrossEntropyWithLogits * result (list R) :=
  match softmax logits with
  | Raise e => (self, Raise e)
  | Ok softmaxed =>
      match to_one_hot targets None with
      | Raise e => (self, Raise e)
      | Ok one_hot =>
          ({| cache := Some (softmaxed, one_hot) |},
           p <- Np.mul one_hot (Np.log softmaxed);;
           Ok (map Ropp (Np.sum_axis1 p)))
      end
  end.

Definition backward (self : CrossEntropyWithLogits) (upstream_gradient : list R)
  : result (Np.ndarray * Np.ndarray) :=
  match cache self with
  | None => Raise AttributeError
  | Some (cache0, cache1) =>
      let expanded_output := Np.reshape_col upstream_gradient in
      a <- Np.mul cache0 (Np.reshape_col (Np.sum_axis1 cache1));;
      d <- Np.sub a cache1;;
      d_logits <- Np.mul expanded_output d;;
      d_targets <- Np.mul (Np.neg expanded_output) (Np.log cache0);;
      Ok (d_logits, d_targets)
  end.

(** Modelled from the spec: calling an operation ([g.Operation.__call__],
    not among the sources) is taken to run its [forward]. *)
Definition ce_with_logits (logits : Np.ndarray) (targets : list Z)
  : result (list R) :=
  snd (forward new_op logits targets).

(** Cell 8: the classifier, with its two parameters as its state. *)
Record MulticlassLogisticRegression : Type :=
  { W : Np.ndarray; b : list R }.

Definition predict_logits (self : MulticlassLogisticRegression) (X : Np.ndarray)
  : result Np.ndarray :=
  xw <- G.dot X (W self);;
  G.add xw (b self).

Definition predict_proba (self : MulticlassLogisticRegression) (X : Np.ndarray)
  : result Np.ndarray :=
  logits <- predict_logits self X;;
  softmax logits.

Definition predict (self : MulticlassLogisticRegression) (X : Np.ndarray)
  : result (list Z) :=
  logits <- predict_logits self X;;
  Np.argmax_axis1 logits.

(** ** Row-wise reading of the array code

    What the broadcasting expressions compute on one row; the lemmas below
    connect the array functions to these. *)

Definition normalize (e : list R) : list R :=
  map (fun y => y / Np.sum_list e) e.

Definition naive_row (r : list R) : list R := normalize (map exp r).

Definition softmax_row (r : list R) : list R :=
  naive_row (map (fun x => x - Np.max_row r) r).

(** [r] is the unit vector of length [n] with its 1 at position [i]. *)
Definition unit_vector (n i : nat) (r : list R) : Prop :=
  length r = n /\ (i < n)%nat /\
  forall j, (j < n)%nat -> nth j r 0 = if (j =? i)%nat then 1 else 0.

(** [i] is the first position of the maximum of [r]. *)
Definition first_max (r : list R) (i : nat) : Prop :=
  (i < length r)%nat /\
  (forall j, (j < length r)%nat -> nth j r 0 <= nth i r 0) /\
  (forall j, (j < i)%nat -> nth j r 0 < nth i r 0).

(** ** The PyTorch data notebook: datasets and metrics

    The plain Python of the notebook on datasets and data loaders: what the
    classes do with their lists and counters.  Exceptions of this notebook
    are kept apart from those of the NumPy code above. *)

Module Py.

Inductive exception : Set := AssertionError | IndexError | ZeroDivisionError.

Inductive outcome (A : Type) : Type :=
| Returns (a : A)
| Raises (e : exception).
Arguments Returns {A} a.
Arguments Raises {A} e.

(** [l[index]] for an integer index: a negative index counts from the end,
    an index outside [-len(l), len(l)) raises IndexError. *)
Definition getitem {A : Type} (l : list A) (index : Z) : outcome A :=
  let n := Z.of_nat (length l) in
  let k := if (index <? 0)%Z then (index + n)%Z else index in
  if ((k <? 0) || (n <=? k))%Z then Raises IndexError
  else match nth_error l (Z.to_nat k) with
       | Some x => Returns x
       | None => Raises IndexError
       end.

End Py.

Module DummyDataset.

Record t (A : Type) : Type := { l : list A }.
Arguments l {A} _.

Definition getitem {A : Type} (self : t A) (index : Z) : Py.outcome A :=
  Py.getitem (l self) index.

Definition len {A : Type} (self : t A) : nat := length (l self).

End DummyDataset.

Module Dataset.

Record t (A B : Type) : Type := { X : list A; y : list B }.
Arguments X {A B} _.
Arguments y {A B} _.

(** [__init__]: the assertion on the two lengths, then the two fields. *)
Definition init {A B : Type} (X : list A) (y : list B) : Py.outcome (t A B) :=
  if (length X =? length y)%nat then Py.Returns {| X := X; y := y |}
  else Py.Raises Py.AssertionError.

(** [__getitem__]: the tuple is built left to right. *)
Definition getitem {A B : Type} (self : t A B) (index : Z)
  : Py.outcome (A * B) :=
  match Py.getitem (X self) index with
  | Py.Raises e => Py.Raises e
  | Py.Returns x =>
      match Py.getitem (y self) index with
      | Py.Raises e => Py.Raises e
      | Py.Returns v => Py.Returns (x, v)
      end
  end.

Definition len {A B : Type} (self : t A B) : nat := length (y self).

End Dataset.

Module Metric.

(** The running sum and the number of batches seen since the last
    [evaluate]. *)
Record t : Type := { cache : R; i : nat }.

Definition init : t := {| cache := 0; i := 0 |}.

Section Forward.

Context {Logits Labels : Type}.

(** The [forward] of the subclass, in exact arithmetic. *)
Variable forward : Logits -> Labels -> Py.outcome R.

(** [__call__]: the counter is incremented before [forward] runs, so it
    stays incremented when [forward] raises. *)
Definition call (self : t) (logits : Logits) (labels : Labels)
  : t * Py.outcome unit :=
  let counted := {| cache := cache self; i := S (i self) |} in
  match forward logits labels with
  | Py.Raises e => (counted, Py.Raises e)
  | Py.Returns v =>
      ({| cache := cache counted + v; i := i counted |}, Py.Returns tt)
  end.

End Forward.

(** [evaluate]: the division comes first; with a counter of 0 it raises
    and nothing is reset.  (The counter is 0 only in a new or just
    evaluated metric, whose cache is the integer 0, so the division is the
    one of Python integers.) *)
Definition evaluate (self : t) : t * Py.outcome R :=
  if (i self =? 0)%nat then (self, Py.Raises Py.ZeroDivisionError)
  else ({| cache := 0; i := 0 |}, Py.Returns (cache self / INR (i self))).

End Metric.

(** ** The same code in binary64

    NumPy computes on IEEE-754 binary64.  The module below gives the cells of
    the notebook their floating-point reading: the arithmetic is the kernel's
    binary64, [np.exp] and [np.log] are functions of the platform's
    mathematical library, taken as a parameter together with the facts about
    them that are used.  The exact-arithmetic reading above and this one
    share the shapes, the broadcasting and the exceptions. *)

Module F64.

Import Floats.
Local Open Scope float_scope.

Record ndarray : Type := Mat { ncols : nat; rows : list (list float) }.

Definition nrows (a : ndarray) : nat := length (rows a).

Definition wf (a : ndarray) : Prop :=
  Forall (fun r => length r = ncols a) (rows a).

Definition broadcast2 (f : float -> float -> float) (a b : ndarray)
  : result ndarray :=
  c <- Np.bdim (ncols a) (ncols b);;
  r <- Np.bdim (nrows a) (nrows b);;
  Ok (Mat c (zip_with (fun ra rb => zip_with f (Np.stretch c ra) (Np.stretch c rb))
                      (Np.stretch r (rows a)) (Np.stretch r (rows b)))).

Definition sub : ndarray -> ndarray -> result ndarray := broadcast2 PrimFloat.sub.
Definition mul : ndarray -> ndarray -> result ndarray := broadcast2 PrimFloat.mul.
Definition div : ndarray -> ndarray -> result ndarray := broadcast2 PrimFloat.div.
Definition add : ndarray -> ndarray -> result ndarray := broadcast2 PrimFloat.add.

Definition map_elems (f : float -> float) (a : ndarray) : ndarray :=
  Mat (ncols a) (map (map f) (rows a)).

(** The platform's [exp] and [log] on binary64. *)
Record libm : Type :=
  { libm_exp : float -> float; libm_log : float -> float }.

(** What is used of [exp], each line a fact of every IEEE-754 library: a
    NaN gives a NaN; at and below -746 the result underflows to +0; at and
    above 710 it overflows to +infinity; an argument of magnitude at most
    2^-55 gives exactly 1; between -700 and 700 the result is positive and
    finite. *)
Definition exp_spec (x y : float) : Prop :=
  if is_nan x then is_nan y = true
  else if x <=? -746 then y = 0
  else if 710 <=? x then y = infinity
  else if abs x <=? 0x1p-55 then y = 1
  else if (-700 <=? x) && (x <=? 700)
       then (0 <? y) = true /\ (y <? infinity) = true
  else True.

(** The sign bit of the value is clear, or the value is a NaN. *)
Definition sign_clear (y : float) : Prop :=
  match classify y with
  | NNormal | NSubn | NZero | NInf => False
  | _ => True
  end.

(** [exp] never returns a value with the sign bit set. *)
Definition ieee (m : libm) : Prop :=
  forall x, exp_spec x (libm_exp m x) /\ sign_clear (libm_exp m x).

(** A library that meets [ieee]: exact where [exp_spec] fixes the value and
    1 everywhere else; its [log] is 0 at 1 and -infinity at 0. *)
Definition coarse_libm : libm :=
  {| libm_exp := fun x =>
       if is_nan x then nan
       else if x <=? -746 then 0
       else if 710 <=? x then infinity
       else 1;
     libm_log := fun x => if x =? 0 then neg_infinity else 0 |}.

Definition exp (m : libm) (a : ndarray) : ndarray := map_elems (libm_exp m) a.
Definition log (m : libm) (a : ndarray) : ndarray := map_elems (libm_log m) a.
Definition neg (a : ndarray) : ndarray := map_elems PrimFloat.opp a.

(** NumPy's pairwise summation of a contiguous row: a plain loop below 8
    entries; up to 128 entries eight running sums over blocks of 8, combined
    as a tree, then the remaining entries one by one; above 128 the two
    halves, the first a multiple of 8 long. *)
Definition tree8 (r : list float) : float :=
  match r with
  | [r0; r1; r2; r3; r4; r5; r6; r7] =>
      ((r0 + r1) + (r2 + r3)) + ((r4 + r5) + (r6 + r7))
  | _ => 0
  end.

Fixpoint accumulate8 (k : nat) (r xs : list float) : list float * list float :=
  match k with
  | O => (r, xs)
  | S k' => accumulate8 k' (zip_with PrimFloat.add r (firstn 8 xs)) (skipn 8 xs)
  end.

Definition pairwise_block (xs : list float) : float :=
  let '(r, rest) :=
    accumulate8 (length xs / 8 - 1) (firstn 8 xs) (skipn 8 xs) in
  fold_left PrimFloat.add rest (tree8 r).

Fixpoint pairwise_sum (fuel : nat) (xs : list float) : float :=
  match fuel with
  | O => 0
  | S fuel' =>
      let n := length xs in
      if (n <? 8)%nat then fold_left PrimFloat.add xs 0
      else if (n <=? 128)%nat then pairwise_block xs
      else
        let n2 := (n / 2 - (n / 2) mod 8)%nat in
        pairwise_sum fuel' (firstn n2 xs) + pairwise_sum fuel' (skipn n2 xs)
  end.

(** [np.sum] of one row: the reduction starts from the identity 0.0 and adds
    the pairwise sum of the row. *)
Definition sum_list (xs : list float) : float :=
  0 + pairwise_sum (S (length xs)) xs.

Definition sum_axis1 (a : ndarray) : list float := map sum_list (rows a).

(** The loop of [np.maximum]: [(in1 >= in2 || isnan(in1)) ? in1 : in2]. *)
Definition maximum (in1 in2 : float) : float :=
  if (in2 <=? in1) || is_nan in1 then in1 else in2.

Definition max_row (r : list float) : float :=
  match r with
  | [] => 0
  | x :: xs => fold_left maximum xs x
  end.

Definition max_axis1 (a : ndarray) : result (list float) :=
  if (ncols a =? 0)%nat then Raise ValueError
  else Ok (map max_row (rows a)).

Definition reshape_col (v : list float) : ndarray :=
  Mat 1 (map (fun x => [x]) v).

(** The loop of [np.argmax] on doubles: the index moves when the entry is
    not below or equal to the running maximum, and the loop stops at the
    first NaN. *)
Fixpoint argmax_from (mp : float) (max_ind i : nat) (xs : list float) : nat :=
  match xs with
  | [] => max_ind
  | x :: xs' =>
      if negb (x <=? mp) then
        if is_nan x then i else argmax_from x i (S i) xs'
      else argmax_from mp max_ind (S i) xs'
  end.

Definition argmax_row (r : list float) : nat :=
  match r with
  | [] => 0%nat
  | x :: xs => if is_nan x then 0%nat else argmax_from x 0 1 xs
  end.

Definition argmax_axis1 (a : ndarray) : result (list Z) :=
  if (ncols a =? 0)%nat then Raise ValueError
  else Ok (map (fun r => Z.of_nat (argmax_row r)) (rows a)).

Definition eye_row (n i : nat) : list float :=
  map (fun j => if (j =? i)%nat then 1 else 0) (seq 0 n).

Definition eye (N : Z) : result ndarray :=
  if (N <? 0)%Z then Raise ValueError
  else let n := Z.to_nat N in Ok (Mat n (map (eye_row n) (seq 0 n))).

Definition take_row (a : ndarray) (i : Z) : result (list float) :=
  let n := Z.of_nat (nrows a) in
  if ((i <? - n) || (n <=? i))%Z then Raise IndexError
  else Ok (nth (Z.to_nat (Np.norm_index n i)) (rows a) []).

Definition take_rows (a : ndarray) (idx : list Z) : result ndarray :=
  rs <- mapM (take_row a) idx;;
  Ok (Mat (ncols a) rs).

Definition column (j : nat) (a : ndarray) : list float :=
  map (fun r => nth j r 0) (rows a).

(** Modelled from the spec: the graph library is not among the sources;
    [g.dot] is taken to be [np.dot], each entry accumulated from 0 in index
    order, and [g.add] to be [np.add] with the bias as a single row. *)
Definition dot (a b : ndarray) : result ndarray :=
  if (ncols a =? nrows b)%nat then
    Ok (Mat (ncols b)
          (map (fun r =>
                  map (fun j => fold_left PrimFloat.add
                                  (zip_with PrimFloat.mul r (column j b)) 0)
                      (seq 0 (ncols b)))
               (rows a)))
  else Raise ValueError.

(** Cell 1. *)
Definition softmax_naive (m : libm) (x : ndarray) : result ndarray :=
  let exponentials := exp m x in
  div exponentials (reshape_col (sum_axis1 exponentials)).

(** Cell 4. *)
Definition softmax (m : libm) (logits : ndarray) : result ndarray :=
  mx <- max_axis1 logits;;
  shifted <- sub logits (reshape_col mx);;
  let exps := exp m shifted in
  div exps (reshape_col (sum_axis1 exps)).

(** Cell 6. *)
Definition to_one_hot (labels : list Z) (max_labels : option Z)
  : result ndarray :=
  max_labels' <- match max_labels with
                 | None => mx <- Np.max_ints labels;; Ok (mx + 1)%Z
                 | Some n => Ok n
                 end;;
  e <- eye max_labels';;
  take_rows e labels.

Definition to_labels (one_hot : ndarray) : result (list Z) :=
  argmax_axis1 one_hot.

(** Cell 7. *)
Record CrossEntropyWithLogits : Type :=
  { cache : option (ndarray * ndarray) }.

Definition forward (m : libm) (self : CrossEntropyWithLogits)
  (logits : ndarray) (targets : list Z)
  : CrossEntropyWithLogits * result (list float) :=
  match softmax m logits with
  | Raise e => (self, Raise e)
  | Ok softmaxed =>
      match to_one_hot targets None with
      | Raise e => (self, Raise e)
      | Ok one_hot =>
          ({| cache := Some (softmaxed, one_hot) |},
           p <- mul one_hot (log m softmaxed);;
           Ok (map PrimFloat.opp (sum_axis1 p)))
      end
  end.

Definition backward (m : libm) (self : CrossEntropyWithLogits)
  (upstream_gradient : list float) : result (ndarray * ndarray) :=
  match cache self with
  | None => Raise AttributeError
  | Some (cache0, cache1) =>
      let expanded_output := reshape_col upstream_gradient in
      a <- mul cache0 (reshape_col (sum_axis1 cache1));;
      d <- sub a cache1;;
      d_logits <- mul expanded_output d;;
      d_targets <- mul (neg expanded_output) (log m cache0);;
      Ok (d_logits, d_targets)
  end.

(** Cell 8. *)
Record MulticlassLogisticRegression : Type :=
  { W : ndarray; b : list float }.

Definition predict_logits (self : MulticlassLogisticRegression) (X : ndarray)
  : result ndarray :=
  xw <- dot X (W self);;
  add xw (Mat (length (b self)) [b self]).

Definition predict_proba (m : libm) (self : MulticlassLogisticRegression)
  (X : ndarray) : result ndarray :=
  logits <- predict_logits self X;;
  softmax m logits.

Definition predict (self : MulticlassLogisticRegression) (X : ndarray)
  : result (list Z) :=
  logits <- predict_logits self X;;
  argmax_axis1 logits.

(** What the naive and the stable softmax compute on one row. *)
Definition naive_row (m : libm) (r : list float) : list float :=
  let e := map (libm_exp m) r in
  map (fun y => y / sum_list e) e.

Definition softmax_row (m : libm) (r : list float) : list float :=
  let e := map (libm_exp m) (map (fun y => y - max_row r) r) in
  map (fun y => y / sum_list e) e.

(** The sign bit of a specification-level value is clear, or it is a
    NaN. *)
Definition sf_sign_clear (x : spec_float) : Prop :=
  match x with
  | S754_zero s | S754_infinity s | S754_finite s _ _ => s = false
  | S754_nan => True
  end.

(** The value is +infinity or a NaN: what a sum of values without sign
    becomes, and stays, once [exp] has overflowed. *)
Definition overflowed (x : float) : Prop :=
  Prim2SF x = S754_infinity false \/ Prim2SF x = S754_nan.

End F64.

(** ** Lists and broadcasting *)

Section ListFacts.

Context {A B C : Type}.

Lemma zip_with_repeat (f : A -> B -> C) (xs : list A) (y : B) :
  zip_with f xs (repeat y (length xs)) = map (fun x => f x y) xs.
Proof.
  induction xs as [|x xs IH]; simpl; [reflexivity|].
  now rewrite IH.
Qed.

Lemma zip_with_map_r (f : A -> B -> C) (h : A -> B) (xs : list A) :
  zip_with f xs (map h xs) = map (fun x => f x (h x)) xs.
Proof.
  induction xs as [|x xs IH]; simpl; [reflexivity|].
  now rewrite IH.
Qed.

Lemma zip_with_length (f : A -> B -> C) (xs : list A) (ys : list B) :
  length (zip_with f xs ys) = Nat.min (length xs) (length ys).
Proof.
  revert ys; induction xs as [|x xs IH]; intros [|y ys]; simpl; auto.
Qed.

Lemma stretch_id (n : nat) (xs : list A) :
  length xs = n -> Np.stretch n xs = xs.
Proof.
  destruct xs as [|x [|x' xs]]; simpl; intros; subst; reflexivity.
Qed.

Lemma stretch_length (n : nat) (xs : list A) :
  length xs = n \/ length xs = 1%nat -> length (Np.stretch n xs) = n.
Proof.
  intros [H|H].
  - now rewrite stretch_id.
  - destruct xs as [|x [|x' xs]]; simpl in *; try discriminate.
    apply repeat_length.
Qed.

Lemma stretch_In (n : nat) (xs : list A) (x : A) :
  In x (Np.stretch n xs) -> In x xs.
Proof.
  destruct xs as [|y [|y' xs]]; simpl; auto.
  intros H. apply repeat_spec in H. now left.
Qed.

End ListFacts.

Lemma In_zip_with {A B C : Type} (f : A -> B -> C) xs ys z :
  In z (zip_with f xs ys) -> exists x y, In x xs /\ In y ys /\ z = f x y.
Proof.
  revert ys; induction xs as [|x xs IH]; intros [|y ys]; simpl; try tauto.
  intros [<-|H].
  - exists x, y; auto.
  - destruct (IH _ H) as (x' & y' & ? & ? & ?). exists x', y'; auto.
Qed.

Lemma bdim_refl n : Np.bdim n n = Ok n.
Proof. unfold Np.bdim. now rewrite Nat.eqb_refl. Qed.

Lemma bdim_1_r n : Np.bdim n 1 = Ok n.
Proof.
  unfold Np.bdim. destruct (n =? 1)%nat eqn:E; [reflexivity|].
  now rewrite Nat.eqb_refl.
Qed.


Lemma bdim_cases a b c :
  Np.bdim a b = Ok c -> (a = c \/ a = 1%nat) /\ (b = c \/ b = 1%nat).
Proof.
  unfold Np.bdim.
  destruct (a =? b)%nat eqn:E1.
  { apply Nat.eqb_eq in E1. intros [= <-]. subst. auto. }
  destruct (a =? 1)%nat eqn:E2.
  { apply Nat.eqb_eq in E2. intros [= <-]. auto. }
  destruct (b =? 1)%nat eqn:E3; [|discriminate].
  apply Nat.eqb_eq in E3. intros [= <-]. auto.
Qed.

(** A well-formed result comes out of every broadcast of well-formed
    arrays. *)
Lemma broadcast2_wf f a b c :
  Np.wf a -> Np.wf b -> Np.broadcast2 f a b = Ok c -> Np.wf c.
Proof.
  unfold Np.broadcast2, Np.wf. intros Ha Hb.
  destruct (Np.bdim (Np.ncols a) (Np.ncols b)) as [cc|] eqn:Ec; [|discriminate].
  destruct (Np.bdim (Np.nrows a) (Np.nrows b)) as [rr|]; [|discriminate].
  simpl. intros [= <-]. simpl.
  apply bdim_cases in Ec. destruct Ec as [Eca Ecb].
  apply Forall_forall. intros z Hz.
  apply In_zip_with in Hz. destruct Hz as (ra & rb & Hra & Hrb & ->).
  apply stretch_In in Hra, Hrb.
  rewrite Forall_forall in Ha, Hb.
  rewrite zip_with_length, !stretch_length.
  - apply Nat.min_id.
  - rewrite (Hb _ Hrb). exact Ecb.
  - rewrite (Ha _ Hra). exact Eca.
Qed.

(** An array combined with a column vector that has one entry per row:
    every row meets its own scalar. *)
Lemma broadcast2_col f a v :
  Np.wf a -> length v = Np.nrows a ->
  Np.broadcast2 f a (Np.reshape_col v)
  = Ok (Np.Mat (Np.ncols a)
          (zip_with (fun r x => map (fun y => f y x) r) (Np.rows a) v)).
Proof.
  unfold Np.broadcast2, Np.wf, Np.nrows. intros Hwf Hlen. simpl.
  rewrite bdim_1_r. simpl.
  rewrite length_map, Hlen, bdim_refl. simpl.
  rewrite !stretch_id by (rewrite ?length_map; auto).
  do 2 f_equal.
  revert v Hlen Hwf. generalize (Np.ncols a) as k.
  induction (Np.rows a) as [|r rs IH]; intros k [|x v] Hlen Hwf;
    simpl in *; try discriminate; [reflexivity|].
  inversion Hwf as [|? ? Hr Hrs]; subst.
  rewrite stretch_id by reflexivity.
  rewrite zip_with_repeat. f_equal. apply IH; auto.
Qed.

(** ** Sums of rows *)

Lemma sum_list_scale (d : R) (e : list R) :
  Np.sum_list (map (fun y => y * d) e) = Np.sum_list e * d.
Proof.
  induction e as [|y e IH]; simpl; [ring|].
  rewrite IH. ring.
Qed.








(** Scaling every entry by the same non-zero factor does not change the
    normalised row. *)
Lemma normalize_scale (d : R) (e : list R) :
  d <> 0 -> normalize (map (fun y => y * d) e) = normalize e.
Proof.
  intros Hd. unfold normalize. rewrite sum_list_scale, map_map.
  apply map_ext. intros y. unfold Rdiv. rewrite Rinv_mult.
  transitivity (y * / Np.sum_list e * (d * / d)); [ring|].
  rewrite Rinv_r by assumption. ring.
Qed.

(** Subtracting a constant from a row before exponentiating cancels in the
    quotient. *)
Lemma naive_row_shift (c : R) (r : list R) :
  naive_row (map (fun x => x - c) r) = naive_row r.
Proof.
  unfold naive_row.
  replace (map exp (map (fun x => x - c) r))
    with (map (fun y => y * exp (- c)) (map exp r)).
  - apply normalize_scale. pose proof (exp_pos (- c)). lra.
  - rewrite !map_map. apply map_ext. intros x.
    unfold Rminus. now rewrite exp_plus.
Qed.

Lemma softmax_row_naive (r : list R) : softmax_row r = naive_row r.
Proof. apply naive_row_shift. Qed.



(** ** The array code, row by row *)

Lemma div_by_row_sums (a : Np.ndarray) :
  Np.wf a ->
  Np.div a (Np.reshape_col (Np.sum_axis1 a))
  = Ok (Np.Mat (Np.ncols a) (map normalize (Np.rows a))).
Proof.
  intros Hwf. unfold Np.div.
  rewrite broadcast2_col by (auto; unfold Np.sum_axis1; apply length_map).
  unfold Np.sum_axis1. now rewrite zip_with_map_r.
Qed.

Lemma wf_map_elems f a : Np.wf a -> Np.wf (Np.map_elems f a).
Proof.
  unfold Np.wf, Np.map_elems. simpl. intros H.
  apply Forall_forall. intros r Hr. apply in_map_iff in Hr.
  destruct Hr as (r' & <- & Hr'). rewrite length_map.
  rewrite Forall_forall in H. auto.
Qed.

Lemma softmax_naive_rows (x : Np.ndarray) :
  Np.wf x ->
  softmax_naive x = Ok (Np.Mat (Np.ncols x) (map naive_row (Np.rows x))).
Proof.
  intros Hwf. unfold softmax_naive.
  rewrite div_by_row_sums by (apply wf_map_elems; exact Hwf).
  simpl. now rewrite map_map.
Qed.

Lemma softmax_rows (logits : Np.ndarray) :
  Np.wf logits -> Np.ncols logits <> 0%nat ->
  softmax logits
  = Ok (Np.Mat (Np.ncols logits) (map softmax_row (Np.rows logits))).
Proof.
  intros Hwf Hk. unfold softmax, Np.max_axis1.
  apply Nat.eqb_neq in Hk. rewrite Hk. simpl.
  unfold Np.sub. rewrite broadcast2_col by (auto; apply length_map).
  simpl. rewrite zip_with_map_r.
  rewrite div_by_row_sums.
  - simpl. now rewrite !map_map.
  - apply wf_map_elems. unfold Np.wf. simpl.
    apply Forall_forall. intros r Hr. apply in_map_iff in Hr.
    destruct Hr as (r' & <- & Hr'). rewrite length_map.
    unfold Np.wf in Hwf. rewrite Forall_forall in Hwf. auto.
Qed.


(** ** One-hot rows *)

Lemma nth_map_seq {A : Type} (f : nat -> A) (n i : nat) (d : A) :
  (i < n)%nat -> nth i (map f (seq 0 n)) d = f i.
Proof.
  intros Hi. rewrite nth_indep with (d' := f 0%nat) by (now rewrite length_map, length_seq).
  rewrite map_nth. now rewrite seq_nth.
Qed.

Lemma eye_row_unit (n i : nat) :
  (i < n)%nat -> unit_vector n i (Np.eye_row n i).
Proof.
  intros Hi. unfold unit_vector, Np.eye_row.
  rewrite length_map, length_seq. repeat split; auto.
  intros j Hj. now rewrite nth_map_seq.
Qed.

Lemma sum_eye_row_from (i s len : nat) :
  Np.sum_list (map (fun j => if (j =? i)%nat then 1 else 0) (seq s len))
  = if ((s <=? i) && (i <? s + len))%nat then 1 else 0.
Proof.
  revert s. induction len as [|len IH]; intros s; simpl.
  - destruct (s <=? i)%nat eqn:E1; simpl; [|reflexivity].
    destruct (i <? s + 0)%nat eqn:E2; [|reflexivity].
    apply Nat.leb_le in E1. apply Nat.ltb_lt in E2. lia.
  - rewrite IH.
    destruct (s =? i)%nat eqn:E.
    + apply Nat.eqb_eq in E. subst.
      replace (S i <=? i)%nat with false by (symmetry; apply Nat.leb_gt; lia).
      replace (i <=? i)%nat with true by (symmetry; apply Nat.leb_le; lia).
      replace (i <? i + S len)%nat with true by (symmetry; apply Nat.ltb_lt; lia).
      simpl. lra.
    + apply Nat.eqb_neq in E.
      destruct (S s <=? i)%nat eqn:E1.
      * apply Nat.leb_le in E1.
        replace (s <=? i)%nat with true by (symmetry; apply Nat.leb_le; lia).
        replace (s + S len)%nat with (S s + len)%nat by lia. simpl. lra.
      * apply Nat.leb_gt in E1.
        replace (s <=? i)%nat with false by (symmetry; apply Nat.leb_gt; lia).
        simpl. lra.
Qed.

Lemma sum_eye_row (n i : nat) :
  (i < n)%nat -> Np.sum_list (Np.eye_row n i) = 1.
Proof.
  intros Hi. unfold Np.eye_row. rewrite sum_eye_row_from. simpl.
  replace (i <? n)%nat with true by (symmetry; apply Nat.ltb_lt; lia).
  reflexivity.
Qed.

Lemma mapM_ok {A B : Type} (f : A -> result B) (g : A -> B) (xs : list A) :
  Forall (fun x => f x = Ok (g x)) xs -> mapM f xs = Ok (map g xs).
Proof.
  induction 1 as [|x xs Hx Hxs IH]; simpl; [reflexivity|].
  now rewrite Hx, IH.
Qed.

Lemma mapM_raise {A B : Type} (f : A -> result B) (e : exn) (xs : list A) (x : A) :
  (forall y e', f y = Raise e' -> e' = e) ->
  In x xs -> f x = Raise e -> mapM f xs = Raise e.
Proof.
  intros Honly Hin Hx. induction xs as [|y ys IH]; simpl in *; [tauto|].
  destruct (f y) as [fy|e'] eqn:Ey; simpl.
  - destruct Hin as [->|Hin]; [congruence|].
    now rewrite IH.
  - f_equal. eauto.
Qed.

Lemma nrows_eye (n : nat) :
  Np.nrows (Np.Mat n (map (Np.eye_row n) (seq 0 n))) = n.
Proof. unfold Np.nrows. simpl. now rewrite length_map, length_seq. Qed.

Lemma take_row_eye (n : nat) (l : Z) :
  (- Z.of_nat n <= l < Z.of_nat n)%Z ->
  Np.take_row (Np.Mat n (map (Np.eye_row n) (seq 0 n))) l
  = Ok (Np.eye_row n (Z.to_nat (Np.norm_index (Z.of_nat n) l))).
Proof.
  intros Hl. unfold Np.take_row. rewrite nrows_eye.
  replace ((l <? - Z.of_nat n) || (Z.of_nat n <=? l))%Z with false.
  - f_equal. simpl. apply nth_map_seq.
    unfold Np.norm_index. destruct (l <? 0)%Z eqn:E.
    + apply Z.ltb_lt in E. lia.
    + apply Z.ltb_ge in E. lia.
  - symmetry. apply orb_false_iff. split.
    + apply Z.ltb_ge. lia.
    + apply Z.leb_gt. lia.
Qed.

Lemma take_row_eye_raise (n : nat) (l : Z) :
  (l < - Z.of_nat n \/ Z.of_nat n <= l)%Z ->
  Np.take_row (Np.Mat n (map (Np.eye_row n) (seq 0 n))) l = Raise IndexError.
Proof.
  intros Hl. unfold Np.take_row. rewrite nrows_eye.
  replace ((l <? - Z.of_nat n) || (Z.of_nat n <=? l))%Z with true; [reflexivity|].
  symmetry. apply orb_true_iff. destruct Hl; [left; apply Z.ltb_lt|right; apply Z.leb_le]; lia.
Qed.

Lemma take_row_only_IndexError a y e :
  Np.take_row a y = Raise e -> e = IndexError.
Proof.
  unfold Np.take_row.
  destruct ((y <? - Z.of_nat (Np.nrows a)) || (Z.of_nat (Np.nrows a) <=? y))%Z;
    congruence.
Qed.

(** [to_one_hot] with an explicit class count, on labels NumPy accepts as
    row indices of the identity matrix. *)
Lemma to_one_hot_rows (labels : list Z) (N : Z) :
  (0 <= N)%Z -> Forall (fun l => - N <= l < N)%Z labels ->
  to_one_hot labels (Some N)
  = Ok (Np.Mat (Z.to_nat N)
          (map (fun l => Np.eye_row (Z.to_nat N) (Z.to_nat (Np.norm_index N l)))
               labels)).
Proof.
  intros HN Hl. unfold to_one_hot, Np.eye. simpl.
  replace (N <? 0)%Z with false by (symmetry; apply Z.ltb_ge; lia).
  simpl. unfold Np.take_rows. simpl.
  rewrite mapM_ok with
    (g := fun l => Np.eye_row (Z.to_nat N) (Z.to_nat (Np.norm_index N l))).
  - reflexivity.
  - eapply Forall_impl; [|exact Hl]. simpl. intros l Hr.
    rewrite take_row_eye by lia. now rewrite Z2Nat.id by lia.
Qed.

Lemma max_ints_spec (x : Z) (xs : list Z) :
  let m := fold_left Z.max xs x in
  In m (x :: xs) /\ Forall (fun l => l <= m)%Z (x :: xs).
Proof.
  revert x. induction xs as [|y ys IH]; intros x; simpl.
  - split; [auto|]. constructor; [lia|constructor].
  - destruct (IH (Z.max x y)) as [Hin Hall]. simpl in *.
    inversion Hall as [|? ? Hm Hrest]; subst. split.
    + destruct Hin as [Hin|Hin]; [|auto].
      destruct (Z.max_spec x y) as [[_ E]|[_ E]]; rewrite E in *; auto.
    + constructor; [lia|]. constructor; [lia|assumption].
Qed.

Lemma norm_index_nonneg (n l : Z) : (0 <= l)%Z -> Np.norm_index n l = l.
Proof.
  intros Hl. unfold Np.norm_index.
  now replace (l <? 0)%Z with false by (symmetry; apply Z.ltb_ge; lia).
Qed.

(** ** Argmax *)

Lemma argmax_from_bounded (best : R) (besti i : nat) (xs : list R) :
  Forall (fun x => x <= best) xs -> Np.argmax_from best besti i xs = besti.
Proof.
  intros H. revert i. induction H as [|x xs Hx Hxs IH]; intros i; simpl.
  - reflexivity.
  - destruct (Rlt_dec best x); [lra|apply IH].
Qed.

Lemma argmax_from_indicator (k s len besti : nat) :
  (s <= k < s + len)%nat ->
  Np.argmax_from 0 besti s
    (map (fun j => if (j =? k)%nat then 1 else 0) (seq s len)) = k.
Proof.
  revert s besti. induction len as [|len IH]; intros s besti Hk; [lia|].
  simpl. destruct (s =? k)%nat eqn:E.
  - apply Nat.eqb_eq in E. subst s.
    destruct (Rlt_dec 0 1); [|lra].
    apply argmax_from_bounded. apply Forall_forall. intros x Hx.
    apply in_map_iff in Hx. destruct Hx as (j & <- & _).
    destruct (j =? k)%nat; lra.
  - apply Nat.eqb_neq in E.
    destruct (Rlt_dec 0 0); [lra|].
    apply IH. lia.
Qed.

Lemma argmax_eye_row (n k : nat) :
  (k < n)%nat -> Np.argmax_row (Np.eye_row n k) = k.
Proof.
  intros Hk. unfold Np.eye_row. destruct n as [|n]; [lia|].
  simpl. destruct k as [|k].
  - apply argmax_from_bounded. apply Forall_forall. intros x Hx.
    apply in_map_iff in Hx. destruct Hx as (j & <- & _).
    destruct (j =? 0)%nat; lra.
  - apply argmax_from_indicator. lia.
Qed.







(** ** Softmax *)






(** ** One-hot encoding and labels *)

(** C2 (as amended): with at least one class, encoding in-range labels and
    taking the per-row argmax gives the labels back. *)
Theorem to_labels_to_one_hot (labels : list Z) (num_classes : Z) :
  (0 < num_classes)%Z ->
  Forall (fun l => 0 <= l < num_classes)%Z labels ->
  (one_hot <- to_one_hot labels (Some num_classes);; to_labels one_hot)
  = Ok labels.
Proof.
  intros HN Hl. rewrite to_one_hot_rows.
  2: lia.
  2:{ eapply Forall_impl; [|exact Hl]. simpl. intros; lia. }
  simpl. unfold to_labels, Np.argmax_axis1. simpl.
  replace (Z.to_nat num_classes =? 0)%nat with false
    by (symmetry; apply Nat.eqb_neq; lia).
  f_equal. rewrite map_map.
  induction Hl as [|l ls Hl Hls IH]; simpl; [reflexivity|].
  rewrite IH. f_equal.
  rewrite norm_index_nonneg by lia.
  rewrite argmax_eye_row by lia. lia.
Qed.

Lemma to_labels_to_one_hot_witness :
  (one_hot <- to_one_hot [0; 1; 0; 3; 5]%Z (Some 6%Z);; to_labels one_hot)
  = Ok [0; 1; 0; 3; 5]%Z.
Proof.
  apply to_labels_to_one_hot.
  - lia.
  - repeat constructor; lia.
Defined.

(** C2, as stated, fails for the empty label vector and zero classes: the
    labels are vacuously in range, the encoding has shape (0, 0) and
    [np.argmax] over its empty class axis raises. *)
Lemma to_labels_to_one_hot_no_class :
  Forall (fun l => 0 <= l < 0)%Z [] /\
  (one_hot <- to_one_hot [] (Some 0%Z);; to_labels one_hot)
  = Raise ValueError.
Proof. split; [constructor|reflexivity]. Qed.

(** C7 (as amended): a label at or above the class count, or below its
    negation, makes [to_one_hot] raise; the exception is the IndexError of
    the row lookup, or the ValueError of [np.eye] when the class count is
    negative. *)
Theorem to_one_hot_out_of_range (labels : list Z) (num_classes l : Z) :
  In l labels -> (l < - num_classes \/ num_classes <= l)%Z ->
  to_one_hot labels (Some num_classes)
  = Raise (if (num_classes <? 0)%Z then ValueError else IndexError).
Proof.
  intros Hin Hl. unfold to_one_hot, Np.eye. simpl.
  destruct (num_classes <? 0)%Z eqn:E; [reflexivity|].
  apply Z.ltb_ge in E. simpl. unfold Np.take_rows.
  rewrite mapM_raise with (e := IndexError) (x := l); auto.
  - intros y e'. apply take_row_only_IndexError.
  - apply take_row_eye_raise. lia.
Qed.

Lemma to_one_hot_out_of_range_witness :
  to_one_hot [0; 2]%Z (Some 2%Z) = Raise IndexError.
Proof.
  apply (to_one_hot_out_of_range [0; 2]%Z 2%Z 2%Z).
  - simpl. auto.
  - lia.
Defined.

(** C7, as stated, fails on a negative label: -1 is outside [0, 2), yet
    no failure is reported and the row returned is the last row of the
    identity matrix. *)
Lemma to_one_hot_negative_label_wraps :
  ~ (0 <= -1 < 2)%Z /\
  to_one_hot [-1]%Z (Some 2%Z) = Ok (Np.Mat 2 [[0; 1]]).
Proof. split; [lia|reflexivity]. Qed.

(** C8 (as amended): without a class count, a non-empty vector of
    non-negative labels is encoded with max(labels)+1 columns, one row per
    label, row i being the unit vector at index labels[i]. *)
Theorem to_one_hot_inferred_classes (labels : list Z) :
  labels <> [] -> Forall (fun l => 0 <= l)%Z labels ->
  exists m one_hot,
    Np.max_ints labels = Ok m /\
    In m labels /\ Forall (fun l => l <= m)%Z labels /\
    to_one_hot labels None = Ok one_hot /\
    Np.ncols one_hot = Z.to_nat (m + 1) /\
    Np.nrows one_hot = length labels /\
    forall i l, nth_error labels i = Some l ->
      exists r, nth_error (Np.rows one_hot) i = Some r /\
                unit_vector (Z.to_nat (m + 1)) (Z.to_nat l) r.
Proof.
  intros Hne Hpos. destruct labels as [|x xs]; [contradiction|].
  destruct (max_ints_spec x xs) as [Hin Hmax]. simpl in Hin, Hmax.
  set (m := fold_left Z.max xs x) in *.
  assert (Hm : (0 <= m)%Z).
  { rewrite Forall_forall in Hpos. apply Hpos. exact Hin. }
  exists m. eexists. split; [reflexivity|].
  split; [exact Hin|]. split; [exact Hmax|].
  assert (Hrange : Forall (fun l => - (m + 1) <= l < m + 1)%Z (x :: xs)).
  { rewrite Forall_forall in *. intros l Hl.
    specialize (Hpos l Hl). specialize (Hmax l Hl). lia. }
  pose proof (to_one_hot_rows (x :: xs) (m + 1) ltac:(lia) Hrange) as Hoh.
  split.
  { exact Hoh. }
  split; [reflexivity|]. split; [unfold Np.nrows; simpl; now rewrite length_map|].
  intros i l Hi. cbn [Np.rows].
  eexists. split.
  - rewrite nth_error_map, Hi. reflexivity.
  - assert (Hl : In l (x :: xs)) by (eapply nth_error_In; eauto).
    rewrite Forall_forall in Hpos, Hmax.
    specialize (Hpos l Hl). specialize (Hmax l Hl).
    rewrite norm_index_nonneg by assumption.
    apply eye_row_unit. lia.
Qed.

Lemma to_one_hot_inferred_classes_witness :
  exists m one_hot,
    Np.max_ints [0; 1; 0; 3; 5]%Z = Ok m /\
    In m [0; 1; 0; 3; 5]%Z /\ Forall (fun l => l <= m)%Z [0; 1; 0; 3; 5]%Z /\
    to_one_hot [0; 1; 0; 3; 5]%Z None = Ok one_hot /\
    Np.ncols one_hot = Z.to_nat (m + 1) /\
    Np.nrows one_hot = length [0; 1; 0; 3; 5]%Z /\
    forall i l, nth_error [0; 1; 0; 3; 5]%Z i = Some l ->
      exists r, nth_error (Np.rows one_hot) i = Some r /\
                unit_vector (Z.to_nat (m + 1)) (Z.to_nat l) r.
Proof.
  apply to_one_hot_inferred_classes.
  - discriminate.
  - repeat constructor; lia.
Defined.

(** C8, as stated, fails on non-empty label vectors with a negative label.
    For [-1] the inferred class count is 0 and the lookup in the empty
    identity matrix raises.  For [-1, 1] the row of the label -1 is the last
    row of the identity matrix, with its 1 at index 1. *)
Lemma to_one_hot_inferred_negative_raises :
  [(-1)%Z] <> [] /\ to_one_hot [-1]%Z None = Raise IndexError /\
  to_one_hot [-1; 1]%Z None = Ok (Np.Mat 2 [[0; 1]; [0; 1]]).
Proof. split; [discriminate|split; reflexivity]. Qed.

(** ** The classifier *)

Lemma dot_wf (a b c : Np.ndarray) : Np.dot a b = Ok c -> Np.wf c.
Proof.
  unfold Np.dot. destruct (Np.ncols a =? Np.nrows b)%nat; [|discriminate].
  intros [= <-]. unfold Np.wf. simpl. apply Forall_forall.
  intros r Hr. apply in_map_iff in Hr. destruct Hr as (r' & <- & _).
  now rewrite length_map, length_seq.
Qed.

Lemma predict_logits_wf self X logits :
  predict_logits self X = Ok logits -> Np.wf logits.
Proof.
  unfold predict_logits, G.dot, G.add.
  destruct (Np.dot X (W self)) as [xw|e] eqn:Ed; [|discriminate].
  simpl. intros Ha. apply dot_wf in Ed.
  eapply broadcast2_wf; [exact Ed| |exact Ha].
  unfold Np.wf. simpl. repeat constructor.
Qed.



(** ** Cross-entropy with logits *)

(** C1: on logits [[0, 0]] and targets [0] the forward pass does not return
    -log(0.5).  The one-hot matrix inferred from the targets alone has a
    single column, it is broadcast over both classes, and the outcome is
    -2 log(0.5). *)
Theorem forward_missing_class (self : CrossEntropyWithLogits) :
  snd (forward self (Np.Mat 2 [[0; 0]]) [0%Z]) = Ok [- (2 * ln (1 / 2))] /\
  - (2 * ln (1 / 2)) <> - ln (1 / 2).
Proof.
  split.
  - unfold forward.
    rewrite softmax_rows by (repeat constructor; simpl; lia).
    simpl. do 2 f_equal.
    unfold softmax_row, naive_row, normalize. simpl.
    replace (Rmax 0 0) with 0 by (symmetry; apply Rmax_left; lra).
    replace (0 - 0) with 0 by ring. rewrite exp_0.
    replace (1 / (1 + (1 + 0))) with (1 / 2) by field.
    ring.
  - assert (H : ln (1 / 2) < 0).
    { rewrite <- ln_1. apply ln_increasing; lra. }
    lra.
Qed.

(** ** Broadcasting between arrays of one shape, and a column on the left *)


















(** * Further properties of the notebook *)

(** ** The naive softmax *)

(** A matrix without columns goes through the naive softmax unchanged,
    whatever its number of rows: nothing is reduced with [np.max], so
    nothing raises. *)
Theorem softmax_naive_no_column (x : Np.ndarray) :
  Np.wf x -> Np.ncols x = 0%nat -> softmax_naive x = Ok x.
Proof.
  intros Hwf Hk. rewrite softmax_naive_rows by assumption.
  destruct x as [k rs]. simpl in *. subst k. do 2 f_equal.
  unfold Np.wf in Hwf. simpl in Hwf.
  induction Hwf as [|r rs Hr Hrs IH]; simpl; [reflexivity|].
  rewrite IH. destruct r; [reflexivity|discriminate].
Qed.

Lemma softmax_naive_no_column_witness :
  softmax_naive (Np.Mat 0 [[]; []]) = Ok (Np.Mat 0 [[]; []]).
Proof.
  apply softmax_naive_no_column.
  - repeat constructor.
  - reflexivity.
Defined.

(** ** The stable softmax *)

Lemma sum_list_repeat (v : R) (k : nat) :
  Np.sum_list (repeat v k) = INR k * v.
Proof.
  induction k as [|k IH]; [simpl; ring|].
  cbn [repeat Np.sum_list fold_right]. fold (Np.sum_list (repeat v k)).
  rewrite IH, S_INR. ring.
Qed.

Lemma softmax_row_constant (c : R) (k : nat) :
  k <> 0%nat -> softmax_row (repeat c k) = repeat (1 / INR k) k.
Proof.
  intros Hk. rewrite softmax_row_naive. unfold naive_row, normalize.
  rewrite !map_repeat, sum_list_repeat. f_equal.
  pose proof (exp_pos c). assert (INR k <> 0) by (now apply not_0_INR).
  field. split; lra.
Qed.

(** A row whose logits are all equal gets the uniform distribution: every
    entry is 1 / (number of classes). *)
Theorem softmax_constant_rows_uniform (logits : Np.ndarray) :
  Np.ncols logits <> 0%nat ->
  Forall (fun r => exists c, r = repeat c (Np.ncols logits)) (Np.rows logits) ->
  softmax logits
  = Ok (Np.Mat (Np.ncols logits)
          (map (fun _ => repeat (1 / INR (Np.ncols logits)) (Np.ncols logits))
               (Np.rows logits))).
Proof.
  intros Hk Hconst.
  assert (Hwf : Np.wf logits).
  { unfold Np.wf. eapply Forall_impl; [|exact Hconst]. simpl.
    intros r (c & ->). apply repeat_length. }
  rewrite softmax_rows by assumption. do 2 f_equal.
  apply map_ext_in. intros r Hr. rewrite Forall_forall in Hconst.
  destruct (Hconst _ Hr) as (c & ->). now apply softmax_row_constant.
Qed.

Lemma softmax_constant_rows_uniform_witness :
  softmax (Np.Mat 2 [[7; 7]; [-3; -3]])
  = Ok (Np.Mat 2 (map (fun _ => repeat (1 / INR 2) 2) [[7; 7]; [-3; -3]])).
Proof.
  apply (softmax_constant_rows_uniform (Np.Mat 2 [[7; 7]; [-3; -3]])).
  - simpl. lia.
  - repeat constructor; [exists 7|exists (-3)]; reflexivity.
Defined.


Lemma Forall2_map_r {A B : Type} (P : A -> B -> Prop) (f : A -> B) (l : list A) :
  (forall x, In x l -> P x (f x)) -> Forall2 P l (map f l).
Proof.
  induction l as [|x l IH]; intros H; simpl; constructor.
  - apply H. now left.
  - apply IH. intros y Hy. apply H. now right.
Qed.

(** ** One-hot matrices *)

Lemma norm_index_range (n l : Z) :
  (- n <= l < n)%Z -> (0 <= Np.norm_index n l < n)%Z.
Proof.
  intros Hl. unfold Np.norm_index. destruct (l <? 0)%Z eqn:E.
  - apply Z.ltb_lt in E. lia.
  - apply Z.ltb_ge in E. lia.
Qed.

Lemma eye_row_entries (n i : nat) :
  Forall (fun v => v = 0 \/ v = 1) (Np.eye_row n i).
Proof.
  unfold Np.eye_row. apply Forall_forall. intros v Hv.
  apply in_map_iff in Hv. destruct Hv as (j & <- & _).
  destruct (j =? i)%nat; auto.
Qed.

(** With a class count and labels NumPy accepts as row indices, the
    encoding is a rectangular matrix with one row per label and one column
    per class; every entry is 0 or 1 and every row sums to exactly 1. *)
Theorem to_one_hot_rows_are_one_hot (labels : list Z) (max_labels : Z) :
  (0 <= max_labels)%Z ->
  Forall (fun l => - max_labels <= l < max_labels)%Z labels ->
  exists one_hot,
    to_one_hot labels (Some max_labels) = Ok one_hot /\
    Np.wf one_hot /\
    Np.ncols one_hot = Z.to_nat max_labels /\
    Np.nrows one_hot = length labels /\
    Forall (fun r => Np.sum_list r = 1 /\ Forall (fun v => v = 0 \/ v = 1) r)
           (Np.rows one_hot).
Proof.
  intros HN Hl. rewrite to_one_hot_rows by assumption.
  eexists. split; [reflexivity|]. unfold Np.wf, Np.nrows.
  cbn [Np.ncols Np.rows]. repeat split.
  - apply Forall_forall. intros r Hr. apply in_map_iff in Hr.
    destruct Hr as (l & <- & _). unfold Np.eye_row.
    now rewrite length_map, length_seq.
  - apply length_map.
  - apply Forall_forall. intros r Hr. apply in_map_iff in Hr.
    destruct Hr as (l & <- & Hin). rewrite Forall_forall in Hl.
    pose proof (norm_index_range _ _ (Hl _ Hin)). split.
    + apply sum_eye_row. lia.
    + apply eye_row_entries.
Qed.

Lemma to_one_hot_rows_are_one_hot_witness :
  exists one_hot,
    to_one_hot [0; -1; 2]%Z (Some 3%Z) = Ok one_hot /\
    Np.wf one_hot /\
    Np.ncols one_hot = Z.to_nat 3 /\
    Np.nrows one_hot = length [0; -1; 2]%Z /\
    Forall (fun r => Np.sum_list r = 1 /\ Forall (fun v => v = 0 \/ v = 1) r)
           (Np.rows one_hot).
Proof.
  apply to_one_hot_rows_are_one_hot.
  - lia.
  - repeat constructor; lia.
Defined.

(** Decoding after encoding returns every label counted from 0: a label
    in [0, n) comes back as it is, a negative label l in [-n, 0) comes back
    as l + n. *)
Theorem to_labels_to_one_hot_wraps (labels : list Z) (max_labels : Z) :
  (0 < max_labels)%Z ->
  Forall (fun l => - max_labels <= l < max_labels)%Z labels ->
  (one_hot <- to_one_hot labels (Some max_labels);; to_labels one_hot)
  = Ok (map (Np.norm_index max_labels) labels).
Proof.
  intros HN Hl. rewrite to_one_hot_rows by (assumption || lia).
  cbn [bind]. unfold to_labels, Np.argmax_axis1. cbn [Np.ncols Np.rows].
  replace (Z.to_nat max_labels =? 0)%nat with false
    by (symmetry; apply Nat.eqb_neq; lia).
  f_equal. rewrite map_map. apply map_ext_in. intros l Hin.
  rewrite Forall_forall in Hl.
  pose proof (norm_index_range _ _ (Hl _ Hin)).
  rewrite argmax_eye_row by lia. lia.
Qed.

Lemma to_labels_to_one_hot_wraps_witness :
  (one_hot <- to_one_hot [0; -1; 2; -3]%Z (Some 3%Z);; to_labels one_hot)
  = Ok (map (Np.norm_index 3) [0; -1; 2; -3]%Z).
Proof.
  apply to_labels_to_one_hot_wraps.
  - lia.
  - repeat constructor; lia.
Defined.

(** ** Argmax picks the first maximum *)

Lemma argmax_from_first_max (pre xs : list R) (best : R) (besti : nat) :
  (besti < length pre)%nat ->
  best = nth besti (pre ++ xs) 0 ->
  (forall j, (j < length pre)%nat -> nth j (pre ++ xs) 0 <= best) ->
  (forall j, (j < besti)%nat -> nth j (pre ++ xs) 0 < best) ->
  first_max (pre ++ xs) (Np.argmax_from best besti (length pre) xs).
Proof.
  revert pre best besti. induction xs as [|x xs IH];
    intros pre best besti Hbi Hbest Hle Hlt.
  - simpl. rewrite app_nil_r in *. unfold first_max.
    rewrite <- Hbest. auto.
  - simpl.
    assert (Hx : nth (length pre) (pre ++ x :: xs) 0 = x) by apply nth_middle.
    replace (pre ++ x :: xs) with ((pre ++ [x]) ++ xs) in *
      by (now rewrite <- app_assoc).
    replace (S (length pre)) with (length (pre ++ [x]))
      by (rewrite length_app; simpl; lia).
    destruct (Rlt_dec best x) as [Hbx|Hbx].
    + apply IH.
      * rewrite length_app. simpl. lia.
      * now rewrite Hx.
      * intros j Hj. rewrite length_app in Hj. simpl in Hj.
        destruct (Nat.eq_dec j (length pre)) as [->|Hne]; [lra|].
        assert (j < length pre)%nat by lia. specialize (Hle j H). lra.
      * intros j Hj. specialize (Hle j Hj). lra.
    + apply IH.
      * rewrite length_app. simpl. lia.
      * exact Hbest.
      * intros j Hj. rewrite length_app in Hj. simpl in Hj.
        destruct (Nat.eq_dec j (length pre)) as [->|Hne]; [lra|].
        apply Hle. lia.
      * exact Hlt.
Qed.

Lemma argmax_row_first_max (r : list R) :
  r <> [] -> first_max r (Np.argmax_row r).
Proof.
  destruct r as [|x xs]; [contradiction|]. intros _.
  unfold Np.argmax_row.
  apply (argmax_from_first_max [x] xs x 0%nat).
  - simpl. lia.
  - reflexivity.
  - intros j Hj. simpl in Hj. assert (j = 0%nat) by lia. subst. simpl. lra.
  - intros j Hj. lia.
Qed.

(** On every matrix with at least one column [to_labels] returns one label
    per row, and the label of a row is the first position at which the row
    takes its maximum. *)
Theorem to_labels_first_maximum (one_hot : Np.ndarray) :
  Np.wf one_hot -> Np.ncols one_hot <> 0%nat ->
  exists labels,
    to_labels one_hot = Ok labels /\
    Forall2 (fun r l => exists i, l = Z.of_nat i /\ first_max r i)
            (Np.rows one_hot) labels.
Proof.
  intros Hwf Hk. unfold to_labels, Np.argmax_axis1.
  apply Nat.eqb_neq in Hk. rewrite Hk. apply Nat.eqb_neq in Hk.
  eexists. split; [reflexivity|].
  apply Forall2_map_r. intros r Hr. exists (Np.argmax_row r).
  split; [reflexivity|]. apply argmax_row_first_max.
  unfold Np.wf in Hwf. rewrite Forall_forall in Hwf. specialize (Hwf _ Hr).
  destruct r; [simpl in Hwf; congruence|discriminate].
Qed.

Lemma to_labels_first_maximum_witness :
  exists labels,
    to_labels (Np.Mat 3 [[1; 4; 4]; [2; 2; 2]]) = Ok labels /\
    Forall2 (fun r l => exists i, l = Z.of_nat i /\ first_max r i)
            [[1; 4; 4]; [2; 2; 2]] labels.
Proof.
  apply (to_labels_first_maximum (Np.Mat 3 [[1; 4; 4]; [2; 2; 2]])).
  - repeat constructor.
  - simpl. lia.
Defined.

(** ** The forward pass *)

Lemma bdim_only_ValueError a c e : Np.bdim a c = Raise e -> e = ValueError.
Proof.
  unfold Np.bdim.
  destruct (a =? c)%nat; [discriminate|].
  destruct (a =? 1)%nat; [discriminate|].
  destruct (c =? 1)%nat; [discriminate|]. congruence.
Qed.

Lemma broadcast2_only_ValueError f a c e :
  Np.broadcast2 f a c = Raise e -> e = ValueError.
Proof.
  unfold Np.broadcast2.
  destruct (Np.bdim (Np.ncols a) (Np.ncols c)) eqn:E1; simpl.
  - destruct (Np.bdim (Np.nrows a) (Np.nrows c)) eqn:E2; simpl; [discriminate|].
    intros [= <-]. eapply bdim_only_ValueError; eauto.
  - intros [= <-]. eapply bdim_only_ValueError; eauto.
Qed.

Lemma softmax_only_ValueError logits e :
  softmax logits = Raise e -> e = ValueError.
Proof.
  unfold softmax, Np.max_axis1.
  destruct (Np.ncols logits =? 0)%nat; simpl; [congruence|].
  destruct (Np.sub logits _) eqn:Es; simpl.
  - apply broadcast2_only_ValueError.
  - intros [= <-]. eapply broadcast2_only_ValueError; eauto.
Qed.

(** An empty batch of targets makes the forward pass raise ValueError,
    whatever the logits, and leaves the operation as it was: nothing is
    cached. *)
Theorem forward_empty_targets
  (self : CrossEntropyWithLogits) (logits : Np.ndarray) :
  forward self logits [] = (self, Raise ValueError).
Proof.
  unfold forward. destruct (softmax logits) as [p|e] eqn:Es.
  - reflexivity.
  - apply softmax_only_ValueError in Es. now subst.
Qed.

Lemma bdim_mismatch (a c : nat) :
  a <> c -> a <> 1%nat -> c <> 1%nat -> Np.bdim a c = Raise ValueError.
Proof.
  intros H1 H2 H3. unfold Np.bdim.
  apply Nat.eqb_neq in H1, H2, H3. now rewrite H1, H2, H3.
Qed.

(** When the one-hot matrix inferred from the targets is neither as wide
    as the logits nor a single column, the forward pass raises ValueError
    from the broadcast product, and by then it has already replaced the
    cache with the new softmax and one-hot matrices. *)
Theorem forward_width_mismatch
  (self : CrossEntropyWithLogits) (logits one_hot : Np.ndarray)
  (targets : list Z) :
  Np.wf logits -> Np.ncols logits <> 0%nat ->
  to_one_hot targets None = Ok one_hot ->
  Np.ncols one_hot <> Np.ncols logits ->
  Np.ncols one_hot <> 1%nat -> Np.ncols logits <> 1%nat ->
  exists softmaxed,
    softmax logits = Ok softmaxed /\
    forward self logits targets
    = ({| cache := Some (softmaxed, one_hot) |}, Raise ValueError).
Proof.
  intros Hwf Hk Hoh Hne H1 H2. unfold forward.
  rewrite softmax_rows by assumption. rewrite Hoh.
  eexists. split; [reflexivity|]. f_equal.
  unfold Np.mul, Np.broadcast2. cbn [Np.log Np.map_elems Np.ncols].
  now rewrite bdim_mismatch.
Qed.

Lemma forward_width_mismatch_witness :
  exists softmaxed,
    softmax (Np.Mat 3 [[0; 0; 0]]) = Ok softmaxed /\
    forward new_op (Np.Mat 3 [[0; 0; 0]]) [1%Z]
    = ({| cache := Some (softmaxed, Np.Mat 2 [[0; 1]]) |}, Raise ValueError).
Proof.
  apply (forward_width_mismatch new_op (Np.Mat 3 [[0; 0; 0]])
           (Np.Mat 2 [[0; 1]]) [1%Z]).
  - repeat constructor.
  - simpl. lia.
  - reflexivity.
  - simpl. lia.
  - simpl. lia.
  - simpl. lia.
Defined.






(** ** The backward pass *)









(** ** The classifier's predictions *)

Lemma predict_logits_shape (self : MulticlassLogisticRegression) (X : Np.ndarray) :
  Np.ncols X = Np.nrows (W self) -> length (b self) = Np.ncols (W self) ->
  exists logits,
    predict_logits self X = Ok logits /\ Np.wf logits /\
    Np.ncols logits = Np.ncols (W self) /\ Np.nrows logits = Np.nrows X.
Proof.
  intros Hin Hb.
  destruct (predict_logits self X) as [logits|e] eqn:El.
  - exists logits. split; [reflexivity|].
    split; [eapply predict_logits_wf; eauto|].
    revert El. unfold predict_logits, G.dot, G.add, Np.dot.
    apply Nat.eqb_eq in Hin. rewrite Hin. cbn [bind].
    unfold Np.add, Np.broadcast2. cbn [Np.ncols Np.rows Np.nrows length].
    rewrite Hb, bdim_refl, bdim_1_r. cbn [bind]. intros [= <-].
    cbn [Np.ncols Np.rows Np.nrows]. split; [reflexivity|].
    unfold Np.nrows. cbn [Np.rows].
    rewrite zip_with_length, repeat_length, stretch_id by reflexivity.
    rewrite length_map. apply Nat.min_id.
  - exfalso. revert El. unfold predict_logits, G.dot, G.add, Np.dot.
    apply Nat.eqb_eq in Hin. rewrite Hin. cbn [bind].
    unfold Np.add, Np.broadcast2. cbn [Np.ncols Np.rows Np.nrows length].
    rewrite Hb, bdim_refl, bdim_1_r. discriminate.
Qed.

(** Under the same shape conditions [predict] returns one label per input
    row, and every label is a class index: at least 0 and below the number
    of classes. *)
Theorem predict_labels_in_range
  (self : MulticlassLogisticRegression) (X : Np.ndarray) :
  Np.ncols X = Np.nrows (W self) ->
  length (b self) = Np.ncols (W self) ->
  Np.ncols (W self) <> 0%nat ->
  exists labels,
    predict self X = Ok labels /\
    length labels = Np.nrows X /\
    Forall (fun l => 0 <= l < Z.of_nat (Np.ncols (W self)))%Z labels.
Proof.
  intros Hin Hb Hk.
  destruct (predict_logits_shape self X Hin Hb) as (L & HL & Hwf & Hc & Hr).
  unfold predict. rewrite HL. cbn [bind]. unfold Np.argmax_axis1.
  replace (Np.ncols L =? 0)%nat with false
    by (symmetry; apply Nat.eqb_neq; congruence).
  eexists. split; [reflexivity|]. unfold Np.nrows in *.
  rewrite length_map. split; [assumption|].
  apply Forall_forall. intros l Hl. apply in_map_iff in Hl.
  destruct Hl as (r & <- & Hin'). unfold Np.wf in Hwf.
  rewrite Forall_forall in Hwf. specialize (Hwf _ Hin').
  destruct (argmax_row_first_max r) as (Hlt & _).
  { destruct r; [simpl in Hwf; congruence|discriminate]. }
  lia.
Qed.

Lemma predict_labels_in_range_witness :
  exists labels,
    predict {| W := Np.Mat 2 [[1; 0]; [0; 1]]; b := [0; 0] |}
            (Np.Mat 2 [[3; 4]]) = Ok labels /\
    length labels = 1%nat /\
    Forall (fun l => 0 <= l < Z.of_nat 2)%Z labels.
Proof.
  apply (predict_labels_in_range
           {| W := Np.Mat 2 [[1; 0]; [0; 1]]; b := [0; 0] |}
           (Np.Mat 2 [[3; 4]])).
  - reflexivity.
  - reflexivity.
  - simpl. lia.
Defined.

(** * The PyTorch data notebook *)

(** ** Indexing *)

Lemma getitem_nat {A : Type} (l : list A) (i : nat) (x : A) :
  nth_error l i = Some x -> Py.getitem l (Z.of_nat i) = Py.Returns x.
Proof.
  intros Hx. unfold Py.getitem.
  assert (Hi : (i < length l)%nat) by (apply nth_error_Some; congruence).
  replace (Z.of_nat i <? 0)%Z with false by (symmetry; apply Z.ltb_ge; lia).
  replace ((Z.of_nat i <? 0) || (Z.of_nat (length l) <=? Z.of_nat i))%Z
    with false.
  - now rewrite Nat2Z.id, Hx.
  - symmetry. apply orb_false_iff. split; [apply Z.ltb_ge|apply Z.leb_gt]; lia.
Qed.

Lemma getitem_out_of_range {A : Type} (l : list A) (index : Z) :
  (index < - Z.of_nat (length l) \/ Z.of_nat (length l) <= index)%Z ->
  Py.getitem l index = Py.Raises Py.IndexError.
Proof.
  intros Hr. unfold Py.getitem.
  destruct (index <? 0)%Z eqn:E.
  - apply Z.ltb_lt in E.
    replace ((index + Z.of_nat (length l) <? 0)
             || (Z.of_nat (length l) <=? index + Z.of_nat (length l)))%Z
      with true; [reflexivity|].
    symmetry. apply orb_true_iff. left. apply Z.ltb_lt. lia.
  - apply Z.ltb_ge in E.
    replace ((index <? 0) || (Z.of_nat (length l) <=? index))%Z with true;
      [reflexivity|].
    symmetry. apply orb_true_iff. right. apply Z.leb_le. lia.
Qed.

Lemma getitem_negative {A : Type} (l : list A) (index : Z) :
  (- Z.of_nat (length l) <= index < 0)%Z ->
  Py.getitem l index = Py.getitem l (index + Z.of_nat (length l)).
Proof.
  intros Hr.
  assert (E1 : (index <? 0)%Z = true) by (apply Z.ltb_lt; lia).
  assert (E2 : (index + Z.of_nat (length l) <? 0)%Z = false)
    by (apply Z.ltb_ge; lia).
  unfold Py.getitem. cbv zeta. rewrite E1. cbv iota.
  rewrite !E2. cbv iota. rewrite ?E2. reflexivity.
Qed.

Lemma getitem_in_range {A : Type} (l : list A) (index : Z) :
  (- Z.of_nat (length l) <= index < Z.of_nat (length l))%Z ->
  exists x, Py.getitem l index = Py.Returns x.
Proof.
  intros Hr.
  assert (Hnat : forall i, (i < length l)%nat ->
                 exists x, Py.getitem l (Z.of_nat i) = Py.Returns x).
  { intros i Hi. destruct (nth_error l i) as [x|] eqn:E.
    - exists x. now apply getitem_nat.
    - apply nth_error_None in E. lia. }
  destruct (Z_lt_le_dec index 0) as [Hneg|Hpos].
  - rewrite getitem_negative by lia.
    replace (index + Z.of_nat (length l))%Z
      with (Z.of_nat (Z.to_nat (index + Z.of_nat (length l)))) by lia.
    apply Hnat. lia.
  - replace index with (Z.of_nat (Z.to_nat index)) by lia.
    apply Hnat. lia.
Qed.

Lemma map_seq_nth_error {A B : Type} (f : nat -> B) (g : A -> B) (zs : list A) :
  (forall i z, nth_error zs i = Some z -> f i = g z) ->
  map f (seq 0 (length zs)) = map g zs.
Proof.
  revert f. induction zs as [|z zs IH]; intros f Hf; [reflexivity|].
  cbn [length seq map]. f_equal.
  - apply (Hf 0%nat). reflexivity.
  - rewrite <- seq_shift, map_map. apply IH.
    intros i z' Hz. apply (Hf (S i)). exact Hz.
Qed.

Lemma nth_error_combine {A B : Type} (xs : list A) (ys : list B) (i : nat) x v :
  nth_error (combine xs ys) i = Some (x, v) ->
  nth_error xs i = Some x /\ nth_error ys i = Some v.
Proof.
  revert ys i. induction xs as [|x0 xs IH]; intros [|y0 ys] [|i]; simpl;
    try discriminate.
  - intros [= <- <-]. auto.
  - apply IH.
Qed.

(** ** Datasets *)

(** Reading a [DummyDataset] at the indices 0, ..., len - 1 returns its
    elements in order without raising, and the index len raises
    IndexError. *)
Theorem DummyDataset_iteration {A : Type} (self : DummyDataset.t A) :
  map (fun i => DummyDataset.getitem self (Z.of_nat i))
      (seq 0 (DummyDataset.len self))
  = map Py.Returns (DummyDataset.l self) /\
  DummyDataset.getitem self (Z.of_nat (DummyDataset.len self))
  = Py.Raises Py.IndexError.
Proof.
  unfold DummyDataset.getitem, DummyDataset.len. split.
  - apply map_seq_nth_error. intros i z Hz. now apply getitem_nat.
  - apply getitem_out_of_range. lia.
Qed.

(** A [Dataset] that the constructor returns was built from two lists of
    one length, has that length, and read at the indices 0, ..., len - 1
    returns the samples paired with their labels, in order. *)
Theorem Dataset_constructed {A B : Type}
  (X : list A) (y : list B) (self : Dataset.t A B) :
  Dataset.init X y = Py.Returns self ->
  length X = length y /\
  Dataset.len self = length X /\
  map (fun i => Dataset.getitem self (Z.of_nat i)) (seq 0 (Dataset.len self))
  = map Py.Returns (combine X y).
Proof.
  unfold Dataset.init. destruct (length X =? length y)%nat eqn:E; [|discriminate].
  apply Nat.eqb_eq in E. intros [= <-]. unfold Dataset.len. cbn [Dataset.y].
  split; [assumption|]. split; [congruence|].
  replace (length y) with (length (combine X y))
    by (rewrite length_combine; lia).
  apply map_seq_nth_error. intros i [x v] Hz.
  apply nth_error_combine in Hz. destruct Hz as [Hx Hv].
  unfold Dataset.getitem. cbn [Dataset.X Dataset.y].
  now rewrite (getitem_nat _ _ _ Hx), (getitem_nat _ _ _ Hv).
Qed.

Lemma Dataset_constructed_witness :
  length [10; 20; 30]%Z = length [true; false; true] /\
  Dataset.len {| Dataset.X := [10; 20; 30]%Z;
                 Dataset.y := [true; false; true] |}
  = length [10; 20; 30]%Z /\
  map (fun i => Dataset.getitem
                  {| Dataset.X := [10; 20; 30]%Z;
                     Dataset.y := [true; false; true] |} (Z.of_nat i))
      (seq 0 (Dataset.len {| Dataset.X := [10; 20; 30]%Z;
                             Dataset.y := [true; false; true] |}))
  = map Py.Returns (combine [10; 20; 30]%Z [true; false; true]).
Proof.
  apply Dataset_constructed. reflexivity.
Defined.

(** On a [Dataset] whose two lists have one length, an index outside
    [-len, len) raises IndexError, an index inside returns a pair, and a
    negative index i returns what i + len returns. *)
Theorem Dataset_getitem_index {A B : Type} (self : Dataset.t A B) (index : Z) :
  length (Dataset.X self) = length (Dataset.y self) ->
  let n := Z.of_nat (Dataset.len self) in
  ((index < - n \/ n <= index)%Z ->
   Dataset.getitem self index = Py.Raises Py.IndexError) /\
  ((- n <= index < n)%Z ->
   exists sample, Dataset.getitem self index = Py.Returns sample) /\
  ((- n <= index < 0)%Z ->
   Dataset.getitem self index = Dataset.getitem self (index + n)).
Proof.
  intros Hlen n. subst n. unfold Dataset.len, Dataset.getitem.
  split; [|split].
  - intros Hr. rewrite getitem_out_of_range by lia. reflexivity.
  - intros Hr.
    destruct (getitem_in_range (Dataset.X self) index) as (x & ->); [lia|].
    destruct (getitem_in_range (Dataset.y self) index) as (v & ->); [lia|].
    eauto.
  - intros Hr.
    rewrite (getitem_negative (Dataset.X self)) by lia.
    rewrite (getitem_negative (Dataset.y self)) by lia.
    now rewrite Hlen.
Qed.

Lemma Dataset_getitem_index_witness :
  let self := {| Dataset.X := [10; 20; 30]%Z;
                 Dataset.y := [true; false; true] |} in
  let n := Z.of_nat (Dataset.len self) in
  ((-1 < - n \/ n <= -1)%Z ->
   Dataset.getitem self (-1) = Py.Raises Py.IndexError) /\
  ((- n <= -1 < n)%Z ->
   exists sample, Dataset.getitem self (-1) = Py.Returns sample) /\
  ((- n <= -1 < 0)%Z ->
   Dataset.getitem self (-1) = Dataset.getitem self (-1 + n)).
Proof.
  apply (Dataset_getitem_index
           {| Dataset.X := [10; 20; 30]%Z; Dataset.y := [true; false; true] |}
           (-1)%Z).
  reflexivity.
Defined.

(** ** Metrics *)

Section MetricFacts.

Context {Logits Labels : Type}.
Variable forward : Logits -> Labels -> Py.outcome R.




(** A call whose [forward] raises passes the exception on but has already
    counted the batch: the next [evaluate] divides the unchanged sum by a
    count that includes the failed call. *)
Theorem Metric_failed_call_is_counted
  (self : Metric.t) (logits : Logits) (labels : Labels) (e : Py.exception) :
  forward logits labels = Py.Raises e ->
  exists self',
    Metric.call forward self logits labels = (self', Py.Raises e) /\
    Metric.evaluate self'
    = (Metric.init,
       Py.Returns (Metric.cache self / INR (S (Metric.i self)))).
Proof.
  intros Hf. unfold Metric.call. rewrite Hf.
  eexists. split; reflexivity.
Qed.

End MetricFacts.


Lemma Metric_failed_call_is_counted_witness :
  exists self',
    Metric.call (fun (_ _ : unit) => Py.Raises Py.IndexError)
      Metric.init tt tt = (self', Py.Raises Py.IndexError) /\
    Metric.evaluate self'
    = (Metric.init,
       Py.Returns (Metric.cache Metric.init / INR (S (Metric.i Metric.init)))).
Proof.
  apply (Metric_failed_call_is_counted
           (fun (_ _ : unit) => Py.Raises Py.IndexError)
           Metric.init tt tt Py.IndexError).
  reflexivity.
Defined.

(** [evaluate] on a metric that has counted no batch raises
    ZeroDivisionError and changes nothing; this is the state every
    successful [evaluate] leaves, so a second [evaluate] in a row always
    raises. *)
Theorem Metric_evaluate_twice (self self' : Metric.t) (result : R) :
  Metric.evaluate self = (self', Py.Returns result) ->
  self' = Metric.init /\
  Metric.evaluate self' = (self', Py.Raises Py.ZeroDivisionError).
Proof.
  unfold Metric.evaluate.
  destruct (Metric.i self =? 0)%nat; [discriminate|].
  intros [= <- _]. split; reflexivity.
Qed.

Lemma Metric_evaluate_twice_witness :
  {| Metric.cache := 0; Metric.i := 0 |} = Metric.init /\
  Metric.evaluate {| Metric.cache := 0; Metric.i := 0 |}
  = ({| Metric.cache := 0; Metric.i := 0 |},
     Py.Raises Py.ZeroDivisionError).
Proof.
  apply (Metric_evaluate_twice {| Metric.cache := 4; Metric.i := 2 |}
           {| Metric.cache := 0; Metric.i := 0 |} (4 / INR 2)).
  reflexivity.
Defined.

(** * More on the loss and its gradient *)




(** * The notebook in binary64 *)

Section Binary64.

Import Floats.
Local Open Scope float_scope.

(** ** The mathematical library *)

Lemma coarse_libm_ieee : F64.ieee F64.coarse_libm.
Proof.
  intros x. unfold F64.exp_spec, F64.sign_clear, F64.coarse_libm.
  cbn [F64.libm_exp].
  destruct (is_nan x); [split; reflexivity|].
  destruct (x <=? -746); [split; reflexivity|].
  destruct (710 <=? x); [split; reflexivity|].
  split; [|reflexivity].
  destruct (abs x <=? 0x1p-55); [reflexivity|].
  destruct ((-700 <=? x) && (x <=? 700)); [split; reflexivity|exact I].
Qed.

Lemma exp_at (m : F64.libm) (x : float) :
  F64.ieee m -> F64.exp_spec x (F64.libm_exp m x).
Proof. intros H. apply H. Qed.




(** ** The two softmax functions on the notebook's extreme row *)

Lemma softmax_extreme (m : F64.libm) :
  F64.ieee m ->
  F64.softmax m (F64.Mat 3 [[1000; 9; 8]]) = Ok (F64.Mat 3 [[1; 0; 0]]).
Proof.
  intros H.
  pose proof (exp_at m 0 H) as H0.
  pose proof (exp_at m (-991) H) as H1.
  pose proof (exp_at m (-992) H) as H2.
  cbv -[F64.libm_exp] in H0, H1, H2.
  cbv -[F64.libm_exp]. rewrite H0, H1, H2.
  reflexivity.
Qed.


(** C9: in binary64, on the notebook's row [[1000, 9, 8]] the stable
    softmax returns exactly [1, 0, 0]: every entry is finite, none is a NaN
    or an infinity, and the row is [1, 0, 0] up to any tolerance. *)
Theorem softmax_extreme_row_is_finite (m : F64.libm) :
  F64.ieee m ->
  exists p,
    F64.softmax m (F64.Mat 3 [[1000; 9; 8]]) = Ok p /\
    F64.rows p = [[1; 0; 0]] /\
    Forall (Forall (fun x => is_finite x = true)) (F64.rows p).
Proof.
  intros H. rewrite softmax_extreme by assumption.
  eexists. split; [reflexivity|]. split; [reflexivity|].
  repeat constructor.
Qed.

Lemma softmax_extreme_row_is_finite_witness :
  exists p,
    F64.softmax F64.coarse_libm (F64.Mat 3 [[1000; 9; 8]]) = Ok p /\
    F64.rows p = [[1; 0; 0]] /\
    Forall (Forall (fun x => is_finite x = true)) (F64.rows p).
Proof.
  apply (softmax_extreme_row_is_finite F64.coarse_libm).
  exact coarse_libm_ieee.
Defined.


(** ** Rounding on small inputs *)


Lemma sum_six_sixths :
  F64.sum_list [1 / 6; 1 / 6; 1 / 6; 1 / 6; 1 / 6; 1 / 6] = 0x1.fffffffffffffp-1.
Proof. reflexivity. Qed.




Lemma gradient_row_sums :
  map F64.sum_list [[1 / 3 - 1; 1 / 3; 1 / 3]; [1 / 3; 1 / 3; 1 / 3 - 1]]
  = [-0x1p-53; -0x1p-53].
Proof. reflexivity. Qed.


(** ** Signs *)

Lemma sign_clear_SF (x : float) :
  F64.sign_clear x <-> F64.sf_sign_clear (Prim2SF x).
Proof.
  unfold F64.sign_clear. rewrite classify_spec.
  unfold SF64classify, SFclassify.
  destruct (Prim2SF x) as [[|]|[|]| |[|] mx ex]; cbn [F64.sf_sign_clear].
  all: try destruct (Z.eqb _ _).
  all: split; intros H.
  all: first [reflexivity | exact I | discriminate | contradiction].
Qed.

Lemma binary_round_aux_sign (prec emax mx ex : Z) (lx : location) :
  F64.sf_sign_clear (binary_round_aux prec emax false mx ex lx).
Proof.
  unfold binary_round_aux.
  destruct (shr_fexp prec emax mx ex lx) as [mrs' e'].
  destruct (shr_fexp prec emax _ e' loc_Exact) as [mrs'' e''].
  destruct (shr_m mrs''); simpl; auto.
  destruct (e'' <=? emax - prec)%Z; reflexivity.
Qed.

Lemma SFadd_sign (prec emax : Z) (x y : spec_float) :
  F64.sf_sign_clear x -> F64.sf_sign_clear y ->
  F64.sf_sign_clear (SFadd prec emax x y).
Proof.
  destruct x as [sx|sx| |sx mx ex], y as [sy|sy| |sy my ey]; simpl;
    intros Hx Hy; subst; simpl; auto.
  unfold binary_normalize, binary_round.
  match goal with
  | |- context [shl_align ?m ?e ?e'] => destruct (shl_align m e e') as [mz ez]
  end.
  apply binary_round_aux_sign.
Qed.

Lemma SFdiv_sign (prec emax : Z) (x y : spec_float) :
  F64.sf_sign_clear x -> F64.sf_sign_clear y ->
  F64.sf_sign_clear (SFdiv prec emax x y).
Proof.
  destruct x as [sx|sx| |sx mx ex], y as [sy|sy| |sy my ey]; simpl;
    intros Hx Hy; subst; simpl; auto.
  destruct (SFdiv_core_binary prec emax (Z.pos mx) ex (Z.pos my) ey)
    as [[mz ez] lz].
  apply binary_round_aux_sign.
Qed.

Lemma sign_clear_add (x y : float) :
  F64.sign_clear x -> F64.sign_clear y -> F64.sign_clear (x + y).
Proof.
  rewrite !sign_clear_SF, add_spec. apply SFadd_sign.
Qed.

Lemma sign_clear_div (x y : float) :
  F64.sign_clear x -> F64.sign_clear y -> F64.sign_clear (x / y).
Proof.
  rewrite !sign_clear_SF, div_spec. apply SFdiv_sign.
Qed.

Lemma sign_clear_zero : F64.sign_clear 0.
Proof. exact I. Qed.

Lemma sign_clear_not_negative (x : float) :
  F64.sign_clear x -> (x <? 0) = false.
Proof.
  intros H. apply sign_clear_SF in H.
  rewrite (ltb_spec x 0). unfold SFltb.
  change (Prim2SF 0) with (S754_zero false).
  destruct (Prim2SF x) as [sx|sx| |sx mx ex]; simpl in *; subst; reflexivity.
Qed.

(** ** Sums of values whose sign bit is clear *)

Lemma fold_left_add_sign (xs : list float) (a : float) :
  Forall F64.sign_clear xs -> F64.sign_clear a ->
  F64.sign_clear (fold_left PrimFloat.add xs a).
Proof.
  intros H. revert a. induction H as [|x xs Hx Hxs IH]; intros a Ha; simpl;
    [assumption|].
  apply IH. now apply sign_clear_add.
Qed.

Lemma tree8_sign (r : list float) :
  Forall F64.sign_clear r -> F64.sign_clear (F64.tree8 r).
Proof.
  intros H. unfold F64.tree8.
  do 8 (destruct H as [|? r ? H]; [exact sign_clear_zero|]).
  destruct H; [|exact sign_clear_zero].
  repeat apply sign_clear_add; assumption.
Qed.

Lemma Forall_firstn {A : Type} (P : A -> Prop) (n : nat) (xs : list A) :
  Forall P xs -> Forall P (firstn n xs).
Proof.
  intros H. revert n. induction H as [|x xs Hx Hxs IH]; intros [|n]; simpl;
    auto.
Qed.

Lemma Forall_skipn {A : Type} (P : A -> Prop) (n : nat) (xs : list A) :
  Forall P xs -> Forall P (skipn n xs).
Proof.
  intros H. revert n. induction H as [|x xs Hx Hxs IH]; intros [|n]; simpl;
    auto.
Qed.

Lemma Forall_zip_with {A B C : Type} (P : A -> Prop) (Q : B -> Prop)
  (R : C -> Prop) (f : A -> B -> C) (xs : list A) (ys : list B) :
  (forall x y, P x -> Q y -> R (f x y)) ->
  Forall P xs -> Forall Q ys -> Forall R (zip_with f xs ys).
Proof.
  intros Hf Hxs Hys. apply Forall_forall. intros z Hz.
  apply In_zip_with in Hz. destruct Hz as (x & y & Hx & Hy & ->).
  rewrite Forall_forall in Hxs, Hys. auto.
Qed.

Lemma accumulate8_sign (k : nat) (r xs : list float) :
  Forall F64.sign_clear r -> Forall F64.sign_clear xs ->
  Forall F64.sign_clear (fst (F64.accumulate8 k r xs)) /\
  Forall F64.sign_clear (snd (F64.accumulate8 k r xs)).
Proof.
  revert r xs. induction k as [|k IH]; intros r xs Hr Hxs;
    cbn [F64.accumulate8]; [auto|].
  apply IH.
  - eapply Forall_zip_with; [apply sign_clear_add|exact Hr|].
    now apply Forall_firstn.
  - now apply Forall_skipn.
Qed.

Lemma pairwise_block_sign (xs : list float) :
  Forall F64.sign_clear xs -> F64.sign_clear (F64.pairwise_block xs).
Proof.
  intros H. unfold F64.pairwise_block.
  pose proof (accumulate8_sign (length xs / 8 - 1) (firstn 8 xs) (skipn 8 xs)
                (Forall_firstn _ _ _ H) (Forall_skipn _ _ _ H)) as [H1 H2].
  destruct (F64.accumulate8 _ _ _) as [r rest]. simpl in H1, H2.
  apply fold_left_add_sign; [assumption|]. now apply tree8_sign.
Qed.

Lemma pairwise_sum_sign (fuel : nat) (xs : list float) :
  Forall F64.sign_clear xs -> F64.sign_clear (F64.pairwise_sum fuel xs).
Proof.
  revert xs. induction fuel as [|fuel IH]; intros xs H;
    cbn [F64.pairwise_sum]; [exact sign_clear_zero|]. cbv zeta.
  destruct (length xs <? 8)%nat.
  - apply fold_left_add_sign; [assumption|exact sign_clear_zero].
  - destruct (length xs <=? 128)%nat.
    + now apply pairwise_block_sign.
    + apply sign_clear_add; apply IH;
        [now apply Forall_firstn|now apply Forall_skipn].
Qed.

Lemma sum_list_sign (xs : list float) :
  Forall F64.sign_clear xs -> F64.sign_clear (F64.sum_list xs).
Proof.
  intros H. unfold F64.sum_list.
  apply sign_clear_add; [exact sign_clear_zero|].
  now apply pairwise_sum_sign.
Qed.

(** ** Broadcasting in binary64 *)

Lemma Forall_stretch {A : Type} (P : A -> Prop) (n : nat) (xs : list A) :
  Forall P xs -> Forall P (Np.stretch n xs).
Proof.
  intros H. apply Forall_forall. intros x Hx. apply stretch_In in Hx.
  rewrite Forall_forall in H. auto.
Qed.

(** Every entry of a broadcast result is the operation applied to an entry
    of each argument. *)
Lemma broadcast2_entries (P Q R : float -> Prop) f a b c :
  (forall x y, P x -> Q y -> R (f x y)) ->
  Forall (Forall P) (F64.rows a) -> Forall (Forall Q) (F64.rows b) ->
  F64.broadcast2 f a b = Ok c -> Forall (Forall R) (F64.rows c).
Proof.
  intros Hf Ha Hb. unfold F64.broadcast2.
  destruct (Np.bdim (F64.ncols a) (F64.ncols b)) as [cc|]; [|discriminate].
  destruct (Np.bdim (F64.nrows a) (F64.nrows b)) as [rr|]; [|discriminate].
  simpl. intros [= <-]. simpl.
  eapply Forall_zip_with; [|apply Forall_stretch; exact Ha
                           |apply Forall_stretch; exact Hb].
  intros ra rb Hra Hrb. simpl in *.
  eapply Forall_zip_with; [exact Hf| |]; now apply Forall_stretch.
Qed.

Lemma broadcast2_col_binary64 f a v :
  F64.wf a -> length v = F64.nrows a ->
  F64.broadcast2 f a (F64.reshape_col v)
  = Ok (F64.Mat (F64.ncols a)
          (zip_with (fun r x => map (fun y => f y x) r) (F64.rows a) v)).
Proof.
  unfold F64.broadcast2, F64.wf, F64.nrows. intros Hwf Hlen. simpl.
  rewrite bdim_1_r. simpl.
  rewrite length_map, Hlen, bdim_refl. simpl.
  rewrite !stretch_id by (rewrite ?length_map; auto).
  do 2 f_equal.
  revert v Hlen Hwf. generalize (F64.ncols a) as k.
  induction (F64.rows a) as [|r rs IH]; intros k [|x v] Hlen Hwf;
    simpl in *; try discriminate; [reflexivity|].
  inversion Hwf as [|? ? Hr Hrs]; subst.
  rewrite stretch_id by reflexivity.
  rewrite zip_with_repeat. f_equal. apply IH; auto.
Qed.

Lemma wf_map_elems_binary64 f a : F64.wf a -> F64.wf (F64.map_elems f a).
Proof.
  unfold F64.wf, F64.map_elems. simpl. intros H.
  apply Forall_forall. intros r Hr. apply in_map_iff in Hr.
  destruct Hr as (r' & <- & Hr'). rewrite length_map.
  rewrite Forall_forall in H. auto.
Qed.

(** ** The stable softmax in binary64, row by row *)

Lemma softmax_rows_binary64 (m : F64.libm) (logits : F64.ndarray) :
  F64.wf logits -> F64.ncols logits <> 0%nat ->
  F64.softmax m logits
  = Ok (F64.Mat (F64.ncols logits)
          (map (F64.softmax_row m) (F64.rows logits))).
Proof.
  intros Hwf Hk. unfold F64.softmax, F64.max_axis1.
  apply Nat.eqb_neq in Hk. rewrite Hk. simpl.
  unfold F64.sub. rewrite broadcast2_col_binary64 by (auto; apply length_map).
  simpl. rewrite zip_with_map_r.
  unfold F64.div, F64.sum_axis1.
  rewrite broadcast2_col_binary64.
  - simpl. rewrite zip_with_map_r, !map_map. reflexivity.
  - apply wf_map_elems_binary64. unfold F64.wf. simpl.
    apply Forall_forall. intros r Hr. apply in_map_iff in Hr.
    destruct Hr as (r' & <- & Hr'). rewrite length_map.
    unfold F64.wf in Hwf. rewrite Forall_forall in Hwf. auto.
  - unfold F64.nrows, F64.exp, F64.map_elems. simpl. now rewrite !length_map.
Qed.

Lemma softmax_row_sign (m : F64.libm) (r : list float) :
  F64.ieee m -> Forall F64.sign_clear (F64.softmax_row m r).
Proof.
  intros H. unfold F64.softmax_row.
  assert (He : forall l, Forall F64.sign_clear (map (F64.libm_exp m) l)).
  { intros l. apply Forall_forall. intros y Hy. apply in_map_iff in Hy.
    destruct Hy as (x & <- & _). apply H. }
  apply Forall_forall. intros y Hy. apply in_map_iff in Hy.
  destruct Hy as (e & <- & He'). apply sign_clear_div.
  - specialize (He (map (fun y => y - F64.max_row r) r)).
    rewrite Forall_forall in He. auto.
  - apply sum_list_sign. apply He.
Qed.


(** Whatever the logits, no entry that the stable softmax returns has its
    sign bit set. *)
Lemma softmax_entries_sign (m : F64.libm) (logits p : F64.ndarray) :
  F64.ieee m -> F64.softmax m logits = Ok p ->
  Forall (Forall F64.sign_clear) (F64.rows p).
Proof.
  intros H. unfold F64.softmax.
  destruct (F64.max_axis1 logits) as [mx|]; [|discriminate]. simpl.
  destruct (F64.sub logits (F64.reshape_col mx)) as [shifted|]; [|discriminate].
  simpl. unfold F64.div.
  assert (He : Forall (Forall F64.sign_clear) (F64.rows (F64.exp m shifted))).
  { unfold F64.exp, F64.map_elems. simpl.
    apply Forall_forall. intros r Hr. apply in_map_iff in Hr.
    destruct Hr as (r' & <- & _).
    apply Forall_forall. intros y Hy. apply in_map_iff in Hy.
    destruct Hy as (x & <- & _). apply H. }
  apply (broadcast2_entries F64.sign_clear F64.sign_clear F64.sign_clear);
    [apply sign_clear_div|exact He|].
  unfold F64.reshape_col, F64.sum_axis1. simpl.
  apply Forall_forall. intros r Hr. apply in_map_iff in Hr.
  destruct Hr as (s & <- & Hs). apply in_map_iff in Hs.
  destruct Hs as (r' & <- & Hr'). constructor; [|constructor].
  apply sum_list_sign. rewrite Forall_forall in He. auto.
Qed.

(** ** Overflow in a sum *)

Lemma overflowed_add_l (a b : float) :
  F64.overflowed a -> F64.sign_clear b -> F64.overflowed (a + b).
Proof.
  unfold F64.overflowed. rewrite sign_clear_SF, add_spec.
  intros [Ha|Ha] Hb; rewrite Ha; [|now right].
  destruct (Prim2SF b) as [s|s| |s mb eb]; simpl in Hb; subst; simpl; auto.
Qed.

Lemma overflowed_add_r (a b : float) :
  F64.sign_clear a -> F64.overflowed b -> F64.overflowed (a + b).
Proof.
  unfold F64.overflowed. rewrite sign_clear_SF, add_spec.
  intros Ha [Hb|Hb]; rewrite Hb.
  - destruct (Prim2SF a) as [s|s| |s ma ea]; simpl in Ha; subst; simpl; auto.
  - destruct (Prim2SF a) as [s|s| |s ma ea]; simpl; auto.
Qed.

Lemma fold_left_add_overflowed (xs : list float) (a : float) :
  Forall F64.sign_clear xs -> F64.sign_clear a ->
  F64.overflowed a \/ Exists F64.overflowed xs ->
  F64.overflowed (fold_left PrimFloat.add xs a).
Proof.
  intros H. revert a. induction H as [|x xs Hx Hxs IH]; intros a Ha Hov; simpl.
  - destruct Hov as [Hov|Hov]; [assumption|inversion Hov].
  - apply IH; [now apply sign_clear_add|].
    destruct Hov as [Hov|Hov].
    + left. now apply overflowed_add_l.
    + inversion Hov as [? ? Hx'|? ? Hxs']; subst.
      * left. now apply overflowed_add_r.
      * now right.
Qed.

Lemma Exists_split {A : Type} (P : A -> Prop) (n : nat) (xs : list A) :
  Exists P xs -> Exists P (firstn n xs) \/ Exists P (skipn n xs).
Proof.
  intros H. rewrite <- (firstn_skipn n xs) in H.
  now apply Exists_app in H.
Qed.

Lemma Exists_zip_with_l {A B C : Type} (P : A -> Prop) (Q : B -> Prop)
  (R : C -> Prop) (f : A -> B -> C) (xs : list A) (ys : list B) :
  (forall x y, P x -> Q y -> R (f x y)) ->
  Forall Q ys -> (length xs <= length ys)%nat ->
  Exists P xs -> Exists R (zip_with f xs ys).
Proof.
  intros Hf Hys Hlen Hex. revert ys Hys Hlen.
  induction Hex as [x xs Hx|x xs Hxs IH]; intros [|y ys] Hys Hlen;
    simpl in *; try lia; inversion Hys; subst.
  - left. auto.
  - right. apply IH; [assumption|lia].
Qed.

Lemma Exists_zip_with_r {A B C : Type} (P : A -> Prop) (Q : B -> Prop)
  (R : C -> Prop) (f : A -> B -> C) (xs : list A) (ys : list B) :
  (forall x y, P x -> Q y -> R (f x y)) ->
  Forall P xs -> (length ys <= length xs)%nat ->
  Exists Q ys -> Exists R (zip_with f xs ys).
Proof.
  intros Hf Hxs Hlen Hex. revert xs Hxs Hlen.
  induction Hex as [y ys Hy|y ys Hys IH]; intros [|x xs] Hxs Hlen;
    simpl in *; try lia; inversion Hxs; subst.
  - left. auto.
  - right. apply IH; [assumption|lia].
Qed.

Lemma tree8_overflowed (r : list float) :
  length r = 8%nat -> Forall F64.sign_clear r -> Exists F64.overflowed r ->
  F64.overflowed (F64.tree8 r).
Proof.
  intros Hlen Hsc Hov.
  do 8 (destruct r as [|? r]; [discriminate|]).
  destruct r; [|discriminate]. clear Hlen.
  repeat match goal with
         | H : Forall _ (_ :: _) |- _ => inversion H; subst; clear H
         end.
  unfold F64.tree8.
  repeat match goal with
         | H : Exists _ (_ :: _) |- _ => inversion H; subst; clear H
         | H : Exists _ [] |- _ => inversion H
         end;
    (let rec go :=
       first
         [ assumption
         | solve [apply overflowed_add_l;
                  [go|repeat apply sign_clear_add; assumption]]
         | solve [apply overflowed_add_r;
                  [repeat apply sign_clear_add; assumption|go]] ]
     in go).
Qed.

Lemma accumulate8_overflowed (k : nat) (r xs : list float) :
  (8 * k <= length xs)%nat -> length r = 8%nat ->
  Forall F64.sign_clear r -> Forall F64.sign_clear xs ->
  Exists F64.overflowed r \/ Exists F64.overflowed xs ->
  length (fst (F64.accumulate8 k r xs)) = 8%nat /\
  (Exists F64.overflowed (fst (F64.accumulate8 k r xs)) \/
   Exists F64.overflowed (snd (F64.accumulate8 k r xs))).
Proof.
  revert r xs. induction k as [|k IH]; intros r xs Hk Hr Hscr Hscx Hov;
    cbn [F64.accumulate8]; [simpl; auto|].
  assert (Hf : length (firstn 8 xs) = 8%nat) by (rewrite length_firstn; lia).
  apply IH.
  - rewrite length_skipn. lia.
  - rewrite zip_with_length, Hr, Hf. reflexivity.
  - eapply Forall_zip_with; [apply sign_clear_add|exact Hscr|].
    now apply Forall_firstn.
  - now apply Forall_skipn.
  - destruct Hov as [Hov|Hov].
    + left. eapply Exists_zip_with_l;
        [apply overflowed_add_l|apply Forall_firstn; exact Hscx|lia|exact Hov].
    + destruct (Exists_split _ 8 _ Hov) as [Hov'|Hov']; [left|now right].
      eapply Exists_zip_with_r;
        [intros x y Hx Hy; apply overflowed_add_r; [exact Hx|exact Hy]
        |exact Hscr|lia|exact Hov'].
Qed.

Lemma pairwise_block_overflowed (xs : list float) :
  (8 <= length xs)%nat ->
  Forall F64.sign_clear xs -> Exists F64.overflowed xs ->
  F64.overflowed (F64.pairwise_block xs).
Proof.
  intros Hlen Hsc Hov. unfold F64.pairwise_block.
  assert (Hf : length (firstn 8 xs) = 8%nat) by (rewrite length_firstn; lia).
  assert (Hk : (8 * (length xs / 8 - 1) <= length (skipn 8 xs))%nat).
  { rewrite length_skipn.
    pose proof (Nat.Div0.mul_div_le (length xs) 8). lia. }
  pose proof (accumulate8_sign (length xs / 8 - 1) (firstn 8 xs) (skipn 8 xs)
                (Forall_firstn _ _ _ Hsc) (Forall_skipn _ _ _ Hsc)) as [S1 S2].
  pose proof (accumulate8_overflowed (length xs / 8 - 1) (firstn 8 xs)
                (skipn 8 xs) Hk Hf (Forall_firstn _ _ _ Hsc)
                (Forall_skipn _ _ _ Hsc)) as Hacc.
  destruct Hacc as [L Hex].
  { destruct (Exists_split _ 8 _ Hov); auto. }
  destruct (F64.accumulate8 _ _ _) as [r rest]. simpl in *.
  apply fold_left_add_overflowed; [assumption|now apply tree8_sign|].
  destruct Hex as [Hex|Hex]; [left|now right].
  now apply tree8_overflowed.
Qed.

Lemma pairwise_sum_overflowed (fuel : nat) (xs : list float) :
  (length xs < fuel)%nat ->
  Forall F64.sign_clear xs -> Exists F64.overflowed xs ->
  F64.overflowed (F64.pairwise_sum fuel xs).
Proof.
  revert xs. induction fuel as [|fuel IH]; intros xs Hlen Hsc Hov; [lia|].
  cbn [F64.pairwise_sum]. cbv zeta.
  destruct (length xs <? 8)%nat eqn:E8.
  - apply fold_left_add_overflowed; [assumption|exact sign_clear_zero|now right].
  - apply Nat.ltb_ge in E8.
    destruct (length xs <=? 128)%nat eqn:E128.
    + now apply pairwise_block_overflowed.
    + apply Nat.leb_gt in E128.
      set (n2 := (length xs / 2 - (length xs / 2) mod 8)%nat).
      assert (Hn2 : (0 < n2 < length xs)%nat).
      { unfold n2.
        pose proof (Nat.mod_upper_bound (length xs / 2) 8).
        pose proof (Nat.Div0.mul_div_le (length xs) 2).
        pose proof (Nat.mul_succ_div_gt (length xs) 2). lia. }
      assert (S1 : Forall F64.sign_clear (firstn n2 xs)) by now apply Forall_firstn.
      assert (S2 : Forall F64.sign_clear (skipn n2 xs)) by now apply Forall_skipn.
      destruct (Exists_split _ n2 _ Hov) as [Hov'|Hov'].
      * apply overflowed_add_l; [|now apply pairwise_sum_sign].
        apply IH; [rewrite length_firstn; lia|assumption|assumption].
      * apply overflowed_add_r; [now apply pairwise_sum_sign|].
        apply IH; [rewrite length_skipn; lia|assumption|assumption].
Qed.

Lemma sum_list_overflowed (xs : list float) :
  Forall F64.sign_clear xs -> Exists F64.overflowed xs ->
  F64.overflowed (F64.sum_list xs).
Proof.
  intros Hsc Hov. unfold F64.sum_list.
  apply overflowed_add_r; [exact sign_clear_zero|].
  apply pairwise_sum_overflowed; [lia|assumption|assumption].
Qed.

(** At and above 710 the argument is neither a NaN nor at most -746. *)
Lemma above_overflow_threshold (v : float) :
  (710 <=? v) = true -> is_nan v = false /\ (v <=? -746) = false.
Proof.
  intros H. rewrite leb_spec in H. unfold is_nan.
  rewrite (leb_spec v (-746)), (eqb_spec v v).
  remember (Prim2SF 710) as a eqn:Ea. cbv in Ea.
  remember (Prim2SF (-746)) as c eqn:Ec. cbv in Ec. subst a c.
  destruct (Prim2SF v) as [s|s| |s mv ev]; try (cbv in H; discriminate).
  - destruct s; [cbv in H; discriminate|]. split; reflexivity.
  - destruct s; [cbv in H; discriminate|]. split; [|reflexivity].
    unfold SFeqb, SFcompare. rewrite Z.compare_refl.
    now rewrite Pos.compare_cont_refl.
Qed.

Lemma exp_overflows (m : F64.libm) (v : float) :
  F64.ieee m -> (710 <=? v) = true -> F64.libm_exp m v = infinity.
Proof.
  intros H Hv. pose proof (exp_at m v H) as Hs. unfold F64.exp_spec in Hs.
  destruct (above_overflow_threshold v Hv) as [E1 E2].
  now rewrite E1, E2, Hv in Hs.
Qed.

Lemma infinity_over_overflowed (s : float) :
  F64.overflowed s -> is_nan (infinity / s) = true.
Proof.
  intros Hs. unfold is_nan. rewrite eqb_spec, div_spec.
  change (Prim2SF infinity) with (S754_infinity false).
  destruct Hs as [-> | ->]; reflexivity.
Qed.

(** ** The naive softmax in binary64, row by row *)

Lemma softmax_naive_rows_binary64 (m : F64.libm) (x : F64.ndarray) :
  F64.wf x ->
  F64.softmax_naive m x
  = Ok (F64.Mat (F64.ncols x) (map (F64.naive_row m) (F64.rows x))).
Proof.
  intros Hwf. unfold F64.softmax_naive, F64.div, F64.sum_axis1.
  rewrite broadcast2_col_binary64.
  - simpl. rewrite zip_with_map_r, !map_map. reflexivity.
  - now apply wf_map_elems_binary64.
  - unfold F64.nrows, F64.exp, F64.map_elems. simpl. now rewrite !length_map.
Qed.

Lemma naive_row_overflow (m : F64.libm) (r : list float) (j : nat) (v : float) :
  F64.ieee m -> nth_error r j = Some v -> (710 <=? v) = true ->
  exists y, nth_error (F64.naive_row m r) j = Some y /\ is_nan y = true.
Proof.
  intros H Hj Hv. unfold F64.naive_row.
  rewrite !nth_error_map, Hj. simpl. eexists. split; [reflexivity|].
  rewrite (exp_overflows m v H Hv).
  apply infinity_over_overflowed. apply sum_list_overflowed.
  - apply Forall_forall. intros y Hy. apply in_map_iff in Hy.
    destruct Hy as (x & <- & _). apply H.
  - apply Exists_exists. exists (F64.libm_exp m v). split.
    + apply in_map. eapply nth_error_In. exact Hj.
    + rewrite (exp_overflows m v H Hv). now left.
Qed.

(** ** Softmax, the gradient and the classifier in binary64 *)








(** * Further properties in binary64 *)

(** In binary64 the naive softmax of cell 1 returns on every rectangular
    matrix, with the shape of its argument, and wherever a logit is at or
    above 710 the entry it returns is a NaN: the exponential overflows to
    +infinity, and so does the sum of its row. *)
Theorem softmax_naive_overflow (m : F64.libm) (x : F64.ndarray) :
  F64.ieee m -> F64.wf x ->
  exists p,
    F64.softmax_naive m x = Ok p /\
    F64.ncols p = F64.ncols x /\ F64.nrows p = F64.nrows x /\
    forall i j r v,
      nth_error (F64.rows x) i = Some r -> nth_error r j = Some v ->
      (710 <=? v) = true ->
      exists q y,
        nth_error (F64.rows p) i = Some q /\ nth_error q j = Some y /\
        is_nan y = true.
Proof.
  intros H Hwf. rewrite softmax_naive_rows_binary64 by assumption.
  eexists. split; [reflexivity|]. unfold F64.nrows.
  cbn [F64.ncols F64.rows].
  split; [reflexivity|]. split; [apply length_map|].
  intros i j r v Hi Hj Hv.
  destruct (naive_row_overflow m r j v H Hj Hv) as (y & Hy & Hnan).
  exists (F64.naive_row m r), y. rewrite nth_error_map, Hi. auto.
Qed.

Lemma softmax_naive_overflow_witness :
  exists p,
    F64.softmax_naive F64.coarse_libm (F64.Mat 3 [[1000; 9; 8]]) = Ok p /\
    F64.ncols p = 3%nat /\ F64.nrows p = 1%nat /\
    forall i j r v,
      nth_error [[1000; 9; 8]] i = Some r -> nth_error r j = Some v ->
      (710 <=? v) = true ->
      exists q y,
        nth_error (F64.rows p) i = Some q /\ nth_error q j = Some y /\
        is_nan y = true.
Proof.
  apply (softmax_naive_overflow F64.coarse_libm (F64.Mat 3 [[1000; 9; 8]])).
  - exact coarse_libm_ieee.
  - repeat constructor.
Defined.

(** ** The classifier in binary64 *)

Lemma broadcast2_wf_binary64 f a b c :
  F64.wf a -> F64.wf b -> F64.broadcast2 f a b = Ok c -> F64.wf c.
Proof.
  unfold F64.broadcast2, F64.wf. intros Ha Hb.
  destruct (Np.bdim (F64.ncols a) (F64.ncols b)) as [cc|] eqn:Ec;
    [|discriminate].
  destruct (Np.bdim (F64.nrows a) (F64.nrows b)) as [rr|]; [|discriminate].
  simpl. intros [= <-]. simpl.
  apply bdim_cases in Ec. destruct Ec as [Eca Ecb].
  apply Forall_forall. intros z Hz.
  apply In_zip_with in Hz. destruct Hz as (ra & rb & Hra & Hrb & ->).
  apply stretch_In in Hra, Hrb.
  rewrite Forall_forall in Ha, Hb.
  rewrite zip_with_length, !stretch_length.
  - apply Nat.min_id.
  - rewrite (Hb _ Hrb). exact Ecb.
  - rewrite (Ha _ Hra). exact Eca.
Qed.

Lemma predict_logits_shape_binary64
  (self : F64.MulticlassLogisticRegression) (X : F64.ndarray) :
  F64.ncols X = F64.nrows (F64.W self) ->
  length (F64.b self) = F64.ncols (F64.W self) ->
  exists logits,
    F64.predict_logits self X = Ok logits /\ F64.wf logits /\
    F64.ncols logits = F64.ncols (F64.W self) /\
    F64.nrows logits = F64.nrows X.
Proof.
  intros Hin Hb. unfold F64.predict_logits, F64.dot.
  apply Nat.eqb_eq in Hin. rewrite Hin. cbn [bind].
  set (xw := F64.Mat _ _).
  assert (Hxw : F64.wf xw).
  { unfold F64.wf, xw. simpl. apply Forall_forall.
    intros r Hr. apply in_map_iff in Hr. destruct Hr as (r' & <- & _).
    now rewrite length_map, length_seq. }
  destruct (F64.add xw (F64.Mat (length (F64.b self)) [F64.b self]))
    as [logits|e] eqn:Ea.
  - exists logits. split; [reflexivity|]. split.
    + eapply broadcast2_wf_binary64; [exact Hxw| |exact Ea].
      unfold F64.wf. simpl. repeat constructor.
    + revert Ea. unfold F64.add, F64.broadcast2, xw.
      cbn [F64.ncols F64.rows F64.nrows length].
      rewrite Hb, bdim_refl, bdim_1_r. cbn [bind]. intros [= <-].
      cbn [F64.ncols F64.rows F64.nrows]. split; [reflexivity|].
      unfold F64.nrows. cbn [F64.rows].
      rewrite zip_with_length, repeat_length, stretch_id by reflexivity.
      rewrite length_map. apply Nat.min_id.
  - exfalso. revert Ea. unfold F64.add, F64.broadcast2, xw.
    cbn [F64.ncols F64.rows F64.nrows length].
    rewrite Hb, bdim_refl, bdim_1_r. discriminate.
Qed.

(** In binary64, with inputs as wide as the weight matrix is high, one bias
    per class and at least one class, [predict_proba] returns one row per
    input row and one column per class, and no probability it returns is
    negative. *)
Theorem predict_proba_never_negative
  (m : F64.libm) (self : F64.MulticlassLogisticRegression) (X : F64.ndarray) :
  F64.ieee m ->
  F64.ncols X = F64.nrows (F64.W self) ->
  length (F64.b self) = F64.ncols (F64.W self) ->
  F64.ncols (F64.W self) <> 0%nat ->
  exists p,
    F64.predict_proba m self X = Ok p /\
    F64.nrows p = F64.nrows X /\ F64.ncols p = F64.ncols (F64.W self) /\
    Forall (Forall (fun x => (x <? 0) = false)) (F64.rows p).
Proof.
  intros H Hin Hb Hk.
  destruct (predict_logits_shape_binary64 self X Hin Hb)
    as (L & HL & Hwf & Hc & Hr).
  unfold F64.predict_proba. rewrite HL. cbn [bind].
  rewrite softmax_rows_binary64 by (assumption || congruence).
  eexists. split; [reflexivity|]. unfold F64.nrows in *.
  cbn [F64.ncols F64.rows]. rewrite length_map.
  split; [assumption|]. split; [assumption|].
  apply Forall_forall. intros q Hq. apply in_map_iff in Hq.
  destruct Hq as (r & <- & _).
  eapply Forall_impl; [|apply softmax_row_sign; exact H].
  intros x. apply sign_clear_not_negative.
Qed.

Lemma predict_proba_never_negative_witness :
  exists p,
    F64.predict_proba F64.coarse_libm
      {| F64.W := F64.Mat 2 [[1; 0]; [0; 1]]; F64.b := [0; 0] |}
      (F64.Mat 2 [[0; 1000]])
    = Ok p /\
    F64.nrows p = 1%nat /\ F64.ncols p = 2%nat /\
    Forall (Forall (fun x => (x <? 0) = false)) (F64.rows p).
Proof.
  apply (predict_proba_never_negative F64.coarse_libm
           {| F64.W := F64.Mat 2 [[1; 0]; [0; 1]]; F64.b := [0; 0] |}
           (F64.Mat 2 [[0; 1000]])).
  - exact coarse_libm_ieee.
  - reflexivity.
  - reflexivity.
  - simpl. lia.
Defined.

End Binary64.
